(** * git-patch-extension: the patch parser and the hunk applier

    A shallow embedding of [parsePatchFile] (lines 1255 to 1400 of
    [src/extension.ts]) and [applyPatchToContent] (lines 1403 to 1431),
    with the JavaScript primitives they call, and the properties of the
    two functions that the specification states.

    Conventions of the embedding.
    - A JavaScript string is a [string]: a sequence of code units, here
      restricted to the units below 256.  The two line terminators above 255
      that the regular-expression dot also refuses therefore cannot occur.
    - A JavaScript number holding a line number or a line count is a [Z]:
      the integer the double holds.  [parseInt] gives the double nearest
      to the numeral's value, ties going to the even significand, so it is
      exact up to 2^53 and rounds beyond [JS.toDouble].  A numeral of more
      than twenty significant digits, on which the language leaves the
      digits after the twentieth to the implementation, and one at or above
      2^1024, on which the source gives [Infinity], are outside the
      embedding; no statement below ranges over them.
    - An array is a [list]; [undefined] read from an empty array followed by
      a method call is the [TypeError] of [outcome]. *)

From Stdlib Require Import String Ascii List ZArith Lia Bool Arith.
From Stdlib Require Import Permutation Sorted.
Import ListNotations.

Local Open Scope string_scope.
Local Open Scope list_scope.

(* ================================================================== *)
(** ** JavaScript string and array primitives *)

Module JS.

(** The line feed, code unit 10, and the text ['\n']. *)
Definition lf : ascii := "010"%char.
Definition LF : string := String lf "".

(** The carriage return, the double quote and the backslash. *)
Definition cr : ascii := "013"%char.
Definition dquote : ascii := "034"%char.
Definition backslash : ascii := "092"%char.

(** [s.startsWith(p)]. *)
Definition startsWith (s p : string) : bool := String.prefix p s.

(** [s.includes(p)]: [p] occurs somewhere in [s]. *)
Fixpoint includes (s p : string) : bool :=
  String.prefix p s ||
  match s with
  | EmptyString => false
  | String _ s' => includes s' p
  end.

(** [s.substring(n)]: [s] without its first [n] code units. *)
Fixpoint substring (s : string) (n : nat) : string :=
  match n, s with
  | O, _ => s
  | S _, EmptyString => EmptyString
  | S n', String _ s' => substring s' n'
  end.

(** [s.split(sep)] for a non-empty separator.  The scan goes left to
    right; where [sep] starts the current piece is closed and the
    separator's code units are skipped ([skip] counts the ones still to
    pass).  The result always has at least one piece. *)
Fixpoint splitFrom (sep : string) (skip : nat) (s : string) : list string :=
  match s with
  | EmptyString => [EmptyString]
  | String c s' =>
      match skip with
      | S k => splitFrom sep k s'
      | O =>
          if String.prefix sep s
          then EmptyString :: splitFrom sep (String.length sep - 1) s'
          else match splitFrom sep 0 s' with
               | [] => [String c EmptyString]
               | piece :: pieces => String c piece :: pieces
               end
      end
  end.

Definition split (s sep : string) : list string := splitFrom sep 0 s.

(** [a.join(sep)] on an array of strings. *)
Definition join (a : list string) (sep : string) : string :=
  String.concat sep a.

(** [a.pop()] seen as the array it leaves behind: popping the empty
    array leaves it empty. *)
Definition pop {A : Type} (a : list A) : list A := removelast a.

(** [s.replace(/\n$/, '')]: without the [m] flag the dollar only matches
    at the end of the text, so one final line feed is removed, if any. *)
Fixpoint dropFinalLF (s : string) : string :=
  match s with
  | EmptyString => EmptyString
  | String c EmptyString =>
      if Ascii.eqb c lf then EmptyString else s
  | String c s' => String c (dropFinalLF s')
  end.

(** [a.splice(start, deleteCount, ...items)] seen as the array it leaves
    behind.  A negative [start] counts from the end; both [start] and
    [deleteCount] are clamped to the array. *)
Definition splice {A : Type} (a : list A) (start deleteCount : Z)
           (items : list A) : list A :=
  let len := Z.of_nat (List.length a) in
  let actualStart :=
    if (start <? 0)%Z then Z.max (len + start) 0 else Z.min start len in
  let actualDeleteCount :=
    Z.min (Z.max deleteCount 0) (len - actualStart) in
  firstn (Z.to_nat actualStart) a
    ++ items
    ++ skipn (Z.to_nat (actualStart + actualDeleteCount)) a.

(** [parseInt(s, 10)] on the texts the hunk-header pattern captures:
    the value of the leading run of decimal digits, as the double that
    holds it.  (On a text that starts with no digit the source gives NaN;
    the pattern [\d+] never captures such a text, see
    [hunkHeader_captures_numerals].) *)
Definition digitValue (c : ascii) : option Z :=
  let n := nat_of_ascii c in
  if (48 <=? n)%nat && (n <=? 57)%nat then Some (Z.of_nat (n - 48)) else None.

Fixpoint parseIntFrom (acc : Z) (s : string) : Z :=
  match s with
  | EmptyString => acc
  | String c s' =>
      match digitValue c with
      | Some d => parseIntFrom (10 * acc + d)%Z s'
      | None => acc
      end
  end.

(** The Number value of a natural number: the nearest integer with a
    significand of 53 bits, a tie going to the even significand.  Below
    2^53 every integer is its own Number value. *)
Definition toDouble (n : Z) : Z :=
  if (n <? 2 ^ 53)%Z then n
  else
    let e := (Z.log2 n - 52)%Z in
    let q := (n / 2 ^ e)%Z in
    let r := (n mod 2 ^ e)%Z in
    let half := (2 ^ (e - 1))%Z in
    let q' :=
      if (half <? r)%Z || ((r =? half)%Z && Z.odd q) then (q + 1)%Z else q in
    (q' * 2 ^ e)%Z.

Definition parseInt (s : string) : Z := toDouble (parseIntFrom 0 s).

(** The numerals on which [parseInt] is fixed by the language: at most
    twenty digits. *)
Definition maxDigits : nat := 20.

End JS.

(* ================================================================== *)
(** ** Regular expressions

    A backtracking matcher for the fragment the source uses: single
    characters, the dot, [\d], greedy star and plus on a character class,
    the greedy optional group, capture groups and concatenation.  The
    matcher is written in continuation-passing style, so that a failure
    of what follows makes the greedy operators give back, as the
    JavaScript engine does. *)

Module Regex.

Inductive cclass : Type :=
| Lit (c : ascii)      (* that character *)
| Dot                  (* any character but a line terminator *)
| Digit.               (* \d *)

Definition inClass (cl : cclass) (c : ascii) : bool :=
  match cl with
  | Lit a => Ascii.eqb a c
  | Dot => negb (Ascii.eqb c JS.lf || Ascii.eqb c JS.cr)
  | Digit => let n := nat_of_ascii c in (48 <=? n)%nat && (n <=? 57)%nat
  end.

Inductive regex : Type :=
| Chr (cl : cclass)
| Star (cl : cclass)
| Plus (cl : cclass)
| Seq (r1 r2 : regex)
| Opt (r : regex)
| Group (i : nat) (r : regex)
| Eps.

(** The literal text [t] as a pattern. *)
Fixpoint text (t : string) : regex :=
  match t with
  | EmptyString => Eps
  | String c t' => Seq (Chr (Lit c)) (text t')
  end.

(** Captures: the text of each group that took part in the match. *)
Definition captures : Type := list (nat * string).

Fixpoint capture (i : nat) (caps : captures) : option string :=
  match caps with
  | [] => None
  | (j, t) :: caps' => if Nat.eqb i j then Some t else capture i caps'
  end.

(** What was consumed between the text [s] and its suffix [s']. *)
Definition consumed (s s' : string) : string :=
  String.substring 0 (String.length s - String.length s') s.

Section Matcher.
Variable R : Type.

(** Greedy repetition of one class: take one more character first,
    fall back to stopping here. *)
Fixpoint starK (cl : cclass) (s : string) (k : string -> option R)
  : option R :=
  match s with
  | String c s' =>
      if inClass cl c
      then match starK cl s' k with
           | Some r => Some r
           | None => k s
           end
      else k s
  | EmptyString => k s
  end.

Fixpoint matchK (r : regex) (s : string) (caps : captures)
         (k : string -> captures -> option R) : option R :=
  match r with
  | Chr cl =>
      match s with
      | String c s' => if inClass cl c then k s' caps else None
      | EmptyString => None
      end
  | Star cl => starK cl s (fun s' => k s' caps)
  | Plus cl =>
      match s with
      | String c s' =>
          if inClass cl c then starK cl s' (fun s'' => k s'' caps)
          else None
      | EmptyString => None
      end
  | Seq r1 r2 =>
      matchK r1 s caps (fun s' caps' => matchK r2 s' caps' k)
  | Opt r1 =>
      match matchK r1 s caps k with
      | Some x => Some x
      | None => k s caps
      end
  | Group i r1 =>
      matchK r1 s caps
             (fun s' caps' => k s' ((i, consumed s s') :: caps'))
  | Eps => k s caps
  end.
End Matcher.

(** The pattern matched with its start at the head of [s]. *)
Definition matchHere (r : regex) (s : string) : option captures :=
  matchK captures r s [] (fun _ caps => Some caps).

(** [s.match(r)] without the [g] flag: the leftmost start that
    matches, [None] for [null]. *)
Fixpoint matchRegex (r : regex) (s : string) : option captures :=
  match matchHere r s with
  | Some caps => Some caps
  | None =>
      match s with
      | EmptyString => None
      | String _ s' => matchRegex r s'
      end
  end.

(** A run of characters of one class. *)
Fixpoint allInClass (cl : cclass) (s : string) : bool :=
  match s with
  | EmptyString => true
  | String c s' => inClass cl c && allInClass cl s'
  end.

(** A numeral: a non-empty run of digits. *)
Definition isNumeral (t : string) : bool :=
  match t with
  | EmptyString => false
  | String _ _ => allInClass Digit t
  end.

Definition allNumerals (caps : captures) : Prop :=
  Forall (fun it => isNumeral (snd it) = true) caps.

(** The patterns whose every group is a run of digits. *)
Fixpoint digitGroups (r : regex) : Prop :=
  match r with
  | Seq r1 r2 => digitGroups r1 /\ digitGroups r2
  | Opt r1 => digitGroups r1
  | Group _ r1 => r1 = Plus Digit
  | _ => True
  end.

End Regex.

(* ================================================================== *)
(** ** The data model: [interface FileChange] *)

Inductive FileType : Type := file | directory | binary.

Record Hunk : Type := mkHunk {
  oldStartLine : Z;
  oldLineCount : Z;
  newStartLine : Z;
  newLineCount : Z;
  content : string
}.

Record FileChange : Type := mkFileChange {
  filePath : string;
  fileType : FileType;
  isNew : bool;
  isDeleted : bool;
  hunks : list Hunk
}.

(** What a call leaves: a value, or the exception it raised. *)
Inductive jsError : Type := TypeError.

Inductive outcome (A : Type) : Type :=
| Returned (a : A)
| Thrown (e : jsError).

Arguments Returned {A} a.
Arguments Thrown {A} e.

(* ================================================================== *)
(** ** [parsePatchFile] *)

Import Regex.

(** The first path pattern: [a\/], group 1 as a greedy dot-star, [ b\/],
    group 2 as a greedy dot-star.  Like the other two it is not anchored. *)
Definition pathPattern : regex :=
  Seq (text "a/")
      (Seq (Group 1 (Star Dot))
           (Seq (text " b/") (Group 2 (Star Dot)))).

(** The fallback path pattern: a double quote, group 1 as a greedy
    dot-star, a double quote; a space; and the same three again with
    group 2. *)
Definition quotedPathPattern : regex :=
  Seq (Chr (Lit JS.dquote))
      (Seq (Group 1 (Star Dot))
           (Seq (Chr (Lit JS.dquote))
                (Seq (Chr (Lit " "%char))
                     (Seq (Chr (Lit JS.dquote))
                          (Seq (Group 2 (Star Dot))
                               (Chr (Lit JS.dquote))))))).

(** The hunk-header pattern [@@ -(\d+)(?:,(\d+))? \+(\d+)(?:,(\d+))? @@]. *)
Definition hunkHeaderPattern : regex :=
  Seq (text "@@ -")
      (Seq (Group 1 (Plus Digit))
           (Seq (Opt (Seq (Chr (Lit ","%char)) (Group 2 (Plus Digit))))
                (Seq (text " +")
                     (Seq (Group 3 (Plus Digit))
                          (Seq (Opt (Seq (Chr (Lit ","%char))
                                         (Group 4 (Plus Digit))))
                               (text " @@")))))).

(** The path line: the first pattern, and the quoted one when it fails.
    [None] is the [continue] of the source. *)
Definition filePathMatch (line0 : string) : option captures :=
  match matchRegex pathPattern line0 with
  | Some m => Some m
  | None => matchRegex quotedPathPattern line0
  end.

(** [filePathMatch[2]]; both patterns always set group 2. *)
Definition targetFilePath (m : captures) : string :=
  match capture 2 m with
  | Some p => p
  | None => EmptyString
  end.

(** The header loop, [for (j = 1; j < Math.min(lines.length, 10); j++)],
    run on the lines it visits.  The two [break]s return at once. *)
Definition isDirectoryLine (line : string) : bool :=
  JS.includes line "old mode" && JS.includes line "new mode" &&
  (JS.includes line "040000" || JS.includes line "160000").

Fixpoint scanHeader (ls : list string) (isNew0 isDeleted0 : bool)
  : FileType * bool * bool :=
  match ls with
  | [] => (file, isNew0, isDeleted0)
  | line :: ls' =>
      let isNew1 := if JS.includes line "new file mode" then true else isNew0 in
      let isDeleted1 :=
        if JS.includes line "deleted file mode" then true else isDeleted0 in
      if JS.includes line "Binary files" then (binary, isNew1, isDeleted1)
      else if isDirectoryLine line then (directory, isNew1, isDeleted1)
      else scanHeader ls' isNew1 isDeleted1
  end.

(** The lines the header loop visits: [lines[1]] to [lines[9]]. *)
Definition headerLines (lines : list string) : list string :=
  firstn 9 (tl lines).

(** The hunk loop: its three variables. *)
Record HunkScan : Type := mkScan {
  inHunk : bool;
  currentHunk : Hunk;
  pushed : list Hunk
}.

Definition initialScan : HunkScan :=
  mkScan false (mkHunk 0 0 0 0 EmptyString) [].

(** [currentHunk.content = currentHunk.content.replace(/\n$/, '');
     hunks.push({ ...currentHunk })]: the trimmed hunk stays the current
    one and a copy of it is pushed. *)
Definition closeHunk (st : HunkScan) : HunkScan :=
  let h := currentHunk st in
  let h' := mkHunk (oldStartLine h) (oldLineCount h)
                   (newStartLine h) (newLineCount h)
                   (JS.dropFinalLF (content h)) in
  mkScan (inHunk st) h' (pushed st ++ [h']).

(** [hunkHeaderMatch[i] ? parseInt(hunkHeaderMatch[i], 10) : 1] *)
Definition countOr1 (i : nat) (m : captures) : Z :=
  match capture i m with
  | Some t => JS.parseInt t
  | None => 1%Z
  end.

Definition startOf (i : nat) (m : captures) : Z :=
  match capture i m with
  | Some t => JS.parseInt t
  | None => 0%Z
  end.

Definition hunkOfHeader (m : captures) : Hunk :=
  mkHunk (startOf 1 m) (countOr1 2 m) (startOf 3 m) (countOr1 4 m) EmptyString.

(** One turn of the hunk loop on [line]. *)
Definition hunkStep (st : HunkScan) (line : string) : HunkScan :=
  if JS.startsWith line "@@" then
    let st1 := if inHunk st then closeHunk st else st in
    match matchRegex hunkHeaderPattern line with
    | Some m => mkScan true (hunkOfHeader m) (pushed st1)
    | None => st1
    end
  else if inHunk st then
    let h := currentHunk st in
    mkScan true
           (mkHunk (oldStartLine h) (oldLineCount h)
                   (newStartLine h) (newLineCount h)
                   (content h ++ line ++ JS.LF))
           (pushed st)
  else st.

(** The loop over [lines[1..]] and the push of the last hunk. *)
Definition findHunks (ls : list string) : list Hunk :=
  let st := fold_left hunkStep ls initialScan in
  if inHunk st then pushed (closeHunk st) else pushed st.

(** The body of the outer loop once [lines] is popped.  [Returned None]
    is a segment left out by [continue]; the empty array has no
    [lines[0]] to call [match] on. *)
Definition parseLines (lines : list string) : outcome (option FileChange) :=
  match lines with
  | [] => Thrown TypeError
  | line0 :: _ =>
      match filePathMatch line0 with
      | None => Returned None
      | Some m =>
          let path := targetFilePath m in
          match scanHeader (headerLines lines) false false with
          | (directory, n, d) =>
              Returned (Some (mkFileChange path directory n d []))
          | (binary, n, d) =>
              Returned (Some (mkFileChange path binary n d []))
          | (file, n, d) =>
              Returned (Some (mkFileChange path file n d (findHunks (tl lines))))
          end
      end
  end.

(** [const lines = diffContent.split('\n'); lines.pop();] *)
Definition segmentLines (diffContent : string) : list string :=
  JS.pop (JS.split diffContent JS.LF).

Definition parseSegment (diffContent : string) : outcome (option FileChange) :=
  parseLines (segmentLines diffContent).

(** The outer loop over the line arrays of [diffFiles[1..]]. *)
Fixpoint parseAll (liness : list (list string)) (fileChanges : list FileChange)
  : outcome (list FileChange) :=
  match liness with
  | [] => Returned fileChanges
  | lines :: rest =>
      match parseLines lines with
      | Thrown e => Thrown e
      | Returned None => parseAll rest fileChanges
      | Returned (Some fc) => parseAll rest (fileChanges ++ [fc])
      end
  end.

(** [diffFiles[1..]]: the file segments. *)
Definition segments (patchContent : string) : list string :=
  tl (JS.split patchContent "diff --git").

Definition parsePatchFile (patchContent : string) : outcome (list FileChange) :=
  parseAll (map segmentLines (segments patchContent)) [].

(* ================================================================== *)
(** ** [applyPatchToContent] *)

(** The inner loop over [hunkLines]. *)
Fixpoint linesToInsert (hunkLines : list string) : list string :=
  match hunkLines with
  | [] => []
  | hunkLine :: rest =>
      if JS.startsWith hunkLine "+" then
        JS.substring hunkLine 1 :: linesToInsert rest
      else if JS.startsWith hunkLine "-"
              || JS.startsWith hunkLine (String JS.backslash "") then
        linesToInsert rest
      else
        JS.substring hunkLine 1 :: linesToInsert rest
  end.

(** [[...change.hunks].sort((a, b) => b.oldStartLine - a.oldStartLine)]:
    the sort is stable and the comparator a total preorder, so the result
    is the one stable arrangement by descending [oldStartLine]; insertion
    from the right computes it. *)
Fixpoint insertHunk (h : Hunk) (sorted : list Hunk) : list Hunk :=
  match sorted with
  | [] => [h]
  | x :: rest =>
      if (oldStartLine x <=? oldStartLine h)%Z then h :: sorted
      else x :: insertHunk h rest
  end.

Fixpoint sortHunks (hs : list Hunk) : list Hunk :=
  match hs with
  | [] => []
  | h :: rest => insertHunk h (sortHunks rest)
  end.

(** One turn of the loop over [sortedHunks]. *)
Definition applyHunk (lines : list string) (hunk : Hunk) : list string :=
  JS.splice lines (oldStartLine hunk - 1) (oldLineCount hunk)
            (linesToInsert (JS.split (content hunk) JS.LF)).

Definition applyLines (lines : list string) (sortedHunks : list Hunk)
  : list string :=
  fold_left applyHunk sortedHunks lines.

Definition applyPatchToContent (originalContent : string) (change : FileChange)
  : string :=
  JS.join (applyLines (JS.split originalContent JS.LF)
                      (sortHunks (hunks change)))
          JS.LF.

(* ================================================================== *)
(** ** Notions used by the statements *)

(** The three branches of the applier's inner loop, as tags. *)
Inductive Tag : Type := added | removed | context.

Definition tagOf (hunkLine : string) : Tag :=
  if JS.startsWith hunkLine "+" then added
  else if JS.startsWith hunkLine "-"
          || JS.startsWith hunkLine (String JS.backslash "") then removed
  else context.

(** A hunk body as the applier reads it: the tag of each line and its
    text without the tag character. *)
Definition taggedBody (h : Hunk) : list (Tag * string) :=
  map (fun l => (tagOf l, JS.substring l 1)) (JS.split (content h) JS.LF).

(** A line that takes the last branch of the inner loop. *)
Definition isContextLine (hunkLine : string) : Prop := tagOf hunkLine = context.

(** The lines a hunk puts in place of its range. *)
Definition replacement (h : Hunk) : list string :=
  linesToInsert (JS.split (content h) JS.LF).

(** The range of a hunk in the numbering of the original, as the indices
    [rangeStart h <= i < rangeEnd h]. *)
Definition rangeStart (h : Hunk) : nat := Z.to_nat (oldStartLine h - 1).
Definition rangeEnd (h : Hunk) : nat :=
  rangeStart h + Z.to_nat (oldLineCount h).

(** Sorted by [oldStartLine], largest first. *)
Definition descending : list Hunk -> Prop :=
  StronglySorted (fun a b => (oldStartLine b <= oldStartLine a)%Z).

(** Hunks listed from the bottom of the file upward, each with its range
    inside the first [bound] lines and above the range of the one before
    it. *)
Fixpoint bottomUp (bound : nat) (hs : list Hunk) : Prop :=
  match hs with
  | [] => True
  | h :: rest =>
      (1 <= oldStartLine h)%Z /\ (0 <= oldLineCount h)%Z
      /\ (rangeEnd h <= bound)%nat
      /\ bottomUp (rangeStart h) rest
  end.

(** What splicing each hunk against the numbering of the original
    prescribes: the lines of [h]'s range are replaced by its replacement,
    the lines after the range are kept, and the hunks above [h] are
    resolved in the lines before the range, at indices that [h] has not
    moved. *)
Fixpoint prescribed (lines : list string) (hs : list Hunk) : list string :=
  match hs with
  | [] => lines
  | h :: rest =>
      prescribed (firstn (rangeStart h) lines) rest
        ++ replacement h ++ skipn (rangeEnd h) lines
  end.

(** The hunk [h] with [t] added at the end of its body. *)
Definition appendBody (h : Hunk) (t : string) : Hunk :=
  mkHunk (oldStartLine h) (oldLineCount h) (newStartLine h) (newLineCount h)
         (content h ++ t).

(** A line of the header block that is not a classification token, not a
    hunk marker, and holds neither a line feed nor the file marker. *)
Definition plainHeaderLine (l : string) : Prop :=
  JS.includes l JS.LF = false
  /\ JS.includes l "diff --git" = false
  /\ JS.startsWith l "@@" = false
  /\ JS.includes l "Binary files" = false
  /\ isDirectoryLine l = false.

(* ================================================================== *)
(** ** Fixtures *)

(** A text given by its lines, each ended by a line feed. *)
Fixpoint unlines (ls : list string) : string :=
  match ls with
  | [] => EmptyString
  | l :: rest => l ++ JS.LF ++ unlines rest
  end.

(** The hunk of the fixture, as lines of the diff. *)
Definition hunk_abe_lines : list string :=
  ["@@ -1,3 +1,4 @@"; " a"; "-b"; "+c"; "+d"; " e"].

(** The diff of the fixture hunk, cut before its final line feed. *)
Definition diff_abe_cut : string :=
  ("diff --git a/f.txt b/f.txt" ++ JS.LF ++
   "@@ -1,3 +1,4 @@" ++ JS.LF ++
   " a" ++ JS.LF ++ "-b" ++ JS.LF ++ "+c" ++ JS.LF ++ "+d" ++ JS.LF ++ " e")%string.

(** A hunk announced as [-1,3 +1,4] whose body is the single line [ a]. *)
Definition diff_short_body : string :=
  unlines [ "diff --git a/f.txt b/f.txt";
            "--- a/f.txt";
            "+++ b/f.txt";
            "@@ -1,3 +1,4 @@";
            " a" ].

(** An open hunk, a line that begins with the marker and is no header,
    and one more added line. *)
Definition diff_bogus_marker : string :=
  unlines [ "diff --git a/f.txt b/f.txt";
            "@@ -1,2 +1,2 @@";
            " a";
            "@@ bogus";
            "+b" ].


(** A new file whose first added line quotes the other marker. *)
Definition diff_both_flags : string :=
  unlines [ "diff --git a/notes.txt b/notes.txt";
            "new file mode 100644";
            "index 0000000..1111111";
            "--- /dev/null";
            "+++ b/notes.txt";
            "@@ -0,0 +1 @@";
            "+see the deleted file mode line" ].

(** A file of twenty lines and two hunks: at line 2 one line is added
    after the context line, at line 10 one line is replaced. *)
Definition twenty_lines : string :=
  JS.join [ "l1"; "l2"; "l3"; "l4"; "l5"; "l6"; "l7"; "l8"; "l9"; "l10";
            "l11"; "l12"; "l13"; "l14"; "l15"; "l16"; "l17"; "l18"; "l19";
            "l20" ] JS.LF.

Definition hunk_at_2 : Hunk := mkHunk 2 1 2 2 (" l2" ++ JS.LF ++ "+new").
Definition hunk_at_10 : Hunk := mkHunk 10 1 11 1 ("-l10" ++ JS.LF ++ "+L10").

Definition twenty_lines_patched : string :=
  JS.join [ "l1"; "l2"; "new"; "l3"; "l4"; "l5"; "l6"; "l7"; "l8"; "l9";
            "L10"; "l11"; "l12"; "l13"; "l14"; "l15"; "l16"; "l17"; "l18";
            "l19"; "l20" ] JS.LF.

(* ================================================================== *)
(** ** Further notions: diff texts *)

(** The marker that starts a file segment. *)
Definition fileMarker : string := "diff --git".

(** The text of a diff given by its file segments: each segment after
    the marker. *)
Fixpoint diffOfSegments (segs : list string) : string :=
  match segs with
  | [] => EmptyString
  | seg :: rest => fileMarker ++ seg ++ diffOfSegments rest
  end.

(** The text of a hunk header with the given numerals; a count that is
    left out is [None]. *)
Definition countText (count : option string) : string :=
  match count with
  | Some t => "," ++ t
  | None => EmptyString
  end.

Definition headerText (oldStart : string) (oldCount : option string)
           (newStart : string) (newCount : option string) (rest : string)
  : string :=
  "@@ -" ++ oldStart ++ countText oldCount
         ++ " +" ++ newStart ++ countText newCount ++ " @@" ++ rest.

(** The count a header gives: the numeral's value, 1 when left out. *)
Definition countValue (count : option string) : Z :=
  match count with
  | Some t => JS.parseInt t
  | None => 1%Z
  end.

(** The text [s] stops a run of the class [cl]: it is empty or starts
    with a character outside the class. *)
Definition stopsRun (cl : cclass) (s : string) : Prop :=
  match s with
  | EmptyString => True
  | String c _ => inClass cl c = false
  end.

(** The captures after an optional count in group [i]. *)
Definition withCount (i : nat) (count : option string) (caps : captures)
  : captures :=
  match count with
  | Some t => (i, t) :: caps
  | None => caps
  end.

(** A count, when given, is a numeral. *)
Definition countIsNumeral (count : option string) : Prop :=
  match count with
  | Some t => isNumeral t = true
  | None => True
  end.

(** A numeral of at most twenty digits: one on which [parseInt] is fixed
    by the language. *)
Definition isShortNumeral (t : string) : bool :=
  isNumeral t && (String.length t <=? JS.maxDigits)%nat.

(** A count, when given, is a numeral of at most twenty digits. *)
Definition countIsShortNumeral (count : option string) : Prop :=
  match count with
  | Some t => isShortNumeral t = true
  | None => True
  end.

(** The hunk loop from a given state, with the push of the last hunk. *)
Definition hunksFrom (st : HunkScan) (ls : list string) : list Hunk :=
  let st' := fold_left hunkStep ls st in
  if inHunk st' then pushed (closeHunk st') else pushed st'.

(* ================================================================== *)
(** ** [generateDiff] and [generateDeletionDiff]

    Lines 520 to 617 of [src/extension.ts]: the data of the preview.  A
    key that an object literal leaves out, and an array element read
    past the end, are [None]. *)

Inductive LineType : Type := lineContext | lineAdd | lineRemove.

Record DiffLine : Type := mkDiffLine {
  lineType : LineType;
  lineContent : option string;
  oldLineNum : option Z;
  newLineNum : option Z
}.

Record DiffData : Type := mkDiffData {
  diffLines : list DiffLine;
  isNewFile : option bool;
  isDeletedFile : option bool
}.

(** [a[i]] for a number [i] that is an integer. *)
Definition arrayGet {A : Type} (a : list A) (i : Z) : option A :=
  if (i <? 0)%Z then None else nth_error a (Z.to_nat i).

(** [a.map((line, index) => f line index)] and the [forEach] that pushes
    one element per line. *)
Fixpoint mapIndexFrom {A B : Type} (f : A -> Z -> B) (index : Z) (a : list A)
  : list B :=
  match a with
  | [] => []
  | x :: rest => f x index :: mapIndexFrom f (index + 1)%Z rest
  end.

Definition mapIndex {A B : Type} (f : A -> Z -> B) (a : list A) : list B :=
  mapIndexFrom f 0%Z a.

(** [while (oldLineIndex < bound) { push context; oldLineIndex++;
    newLineIndex++ }], run for the [n] turns it takes. *)
Fixpoint contextRun (oldLines : list string) (n : nat)
         (oldLineIndex newLineIndex : Z) : list DiffLine :=
  match n with
  | O => []
  | S n' =>
      mkDiffLine lineContext (arrayGet oldLines oldLineIndex)
                 (Some (oldLineIndex + 1)%Z) (Some (newLineIndex + 1)%Z)
        :: contextRun oldLines n' (oldLineIndex + 1)%Z (newLineIndex + 1)%Z
  end.

(** The state of the loop over the hunks. *)
Record DiffScan : Type := mkDiffScan {
  scanned : list DiffLine;
  oldLineIndex : Z;
  newLineIndex : Z
}.

(** The two indices after a context loop that stops at [bound]. *)
Definition contextTo (oldLines : list string) (bound : Z) (st : DiffScan)
  : DiffScan :=
  let n := Z.to_nat (bound - oldLineIndex st) in
  mkDiffScan
    (scanned st ++ contextRun oldLines n (oldLineIndex st) (newLineIndex st))
    (oldLineIndex st + Z.of_nat n)
    (newLineIndex st + Z.of_nat n).

(** One turn of the loop over [hunkLines]. *)
Definition hunkLineStep (st : DiffScan) (hunkLine : string) : DiffScan :=
  if JS.startsWith hunkLine "-" then
    mkDiffScan
      (scanned st ++ [mkDiffLine lineRemove (Some (JS.substring hunkLine 1))
                                 (Some (oldLineIndex st + 1)%Z) None])
      (oldLineIndex st + 1) (newLineIndex st)
  else if JS.startsWith hunkLine "+" then
    mkDiffScan
      (scanned st ++ [mkDiffLine lineAdd (Some (JS.substring hunkLine 1))
                                 None (Some (newLineIndex st + 1)%Z)])
      (oldLineIndex st) (newLineIndex st + 1)
  else
    mkDiffScan
      (scanned st ++ [mkDiffLine lineContext (Some (JS.substring hunkLine 1))
                                 (Some (oldLineIndex st + 1)%Z)
                                 (Some (newLineIndex st + 1)%Z)])
      (oldLineIndex st + 1) (newLineIndex st + 1).

(** One turn of the loop over [change.hunks]. *)
Definition diffHunkStep (oldLines : list string) (st : DiffScan) (hunk : Hunk)
  : DiffScan :=
  let contextStart := Z.max 0 (oldStartLine hunk - 4) in
  let st1 := contextTo oldLines contextStart st in
  let st2 := mkDiffScan (scanned st1)
                        (oldStartLine hunk - 1) (newStartLine hunk - 1) in
  fold_left hunkLineStep (JS.split (content hunk) JS.LF) st2.

Definition generateDiff (oldContent newContent : string) (change : FileChange)
  : DiffData :=
  let oldLines := JS.split oldContent JS.LF in
  let newLines := JS.split newContent JS.LF in
  if isNew change then
    mkDiffData
      (mapIndex (fun line index =>
                   mkDiffLine lineAdd (Some line) None (Some (index + 1)%Z))
                newLines)
      (Some true) None
  else
    let st := fold_left (diffHunkStep oldLines) (hunks change)
                        (mkDiffScan [] 0 0) in
    let contextEnd :=
      Z.min (Z.of_nat (length oldLines)) (oldLineIndex st + 3) in
    mkDiffData (scanned (contextTo oldLines contextEnd st)) (Some false) None.

Definition generateDeletionDiff (oldContent : string) : DiffData :=
  let oldLines := JS.split oldContent JS.LF in
  mkDiffData
    (mapIndex (fun line index =>
                 mkDiffLine lineRemove (Some line) (Some (index + 1)%Z) None)
              oldLines)
    None (Some true).

(** The entries of a preview that are not removals, and their texts. *)
Definition isRemoval (e : DiffLine) : bool :=
  match lineType e with
  | lineRemove => true
  | _ => false
  end.

Definition keptTexts (es : list DiffLine) : list (option string) :=
  map lineContent (filter (fun e => negb (isRemoval e)) es).

(** The texts of a preview, joined as lines. *)
Definition textOf (es : list DiffLine) : string :=
  JS.join (map (fun e => match lineContent e with
                         | Some t => t
                         | None => EmptyString
                         end) es) JS.LF.

(** The numbers [first], [first + 1], ... of [n] lines. *)
Fixpoint lineNumbers (first : Z) (n : nat) : list (option Z) :=
  match n with
  | O => []
  | S n' => Some first :: lineNumbers (first + 1)%Z n'
  end.

(** The entries the inner loop adds for the lines of one hunk, from the
    indices [o] and [n]. *)
Definition hunkEntries (o n : Z) (hunkLines : list string) : list DiffLine :=
  scanned (fold_left hunkLineStep hunkLines (mkDiffScan [] o n)).



(* ================================================================== *)
(** ** The preparation loop of [activate]

    Lines 50 to 109 of [src/extension.ts]: the loop that sorts the
    records of the parser into files to delete and files to patch, and
    computes the new content of the latter.  The file system, the path
    functions and the message windows are the host's; they are taken as
    given.  Each operation of the file system may change the world and
    may raise, but for [existsSync], which answers [false] instead.
    [consoleError] is [console.error] with a text and the error. *)

Inductive MessageKind : Type := information | warning | errorMessage.

Record Host : Type := mkHost {
  world : Type;
  hostError : Type;
  errorText : hostError -> string;
  pathJoin : string -> string -> string;
  pathBasename : string -> string;
  pathDirname : string -> string;
  existsSync : world -> string -> bool * world;
  statIsDirectory : world -> string -> (hostError + bool) * world;
  readFileSync : world -> string -> (hostError + string) * world;
  mkdirSync : world -> string -> (hostError + unit) * world;
  writeFileSync : world -> string -> string -> (hostError + unit) * world;
  unlinkSync : world -> string -> (hostError + unit) * world;
  showMessage : world -> MessageKind -> string -> world;
  consoleError : world -> string -> hostError -> world
}.

(** An element of [supportedChanges], of [deletedFiles]. *)
Record SupportedChange : Type := mkSupported {
  sChange : FileChange;
  sTargetFilePath : string;
  sTempFilePath : string;
  sNewContent : string
}.

Record DeletedFile : Type := mkDeleted {
  dChange : FileChange;
  dTargetFilePath : string
}.

Definition Prepared : Type := (list SupportedChange * list DeletedFile)%type.

(** One turn of the loop on [change].  The result is the two arrays, or
    the exception that leaves the loop. *)
Definition prepareChange (H : Host) (workspaceRoot : string)
           (acc : Prepared) (change : FileChange) (w : world H)
  : (hostError H + Prepared) * world H :=
  let targetFilePath := pathJoin H workspaceRoot (filePath change) in
  match fileType change with
  | directory =>
      (inr acc,
       showMessage H w information ("Skipping directory: " ++ filePath change))
  | binary =>
      (inr acc,
       showMessage H w information
                   ("Skipping binary file: " ++ filePath change
                      ++ " (not supported in this version)"))
  | file =>
      let (targetFileExists, w1) := existsSync H w targetFilePath in
      if isDeleted change then
        (inr (if targetFileExists
              then (fst acc, snd acc ++ [mkDeleted change targetFilePath])
              else acc),
         w1)
      else
        match (if targetFileExists then statIsDirectory H w1 targetFilePath
               else (inr false, w1)) with
        | (inl e, w2) => (inl e, w2)
        | (inr true, w2) =>
            (inr acc,
             showMessage H w2 warning
                         ("Skipping " ++ filePath change
                            ++ " because it is a directory"))
        | (inr false, w2) =>
            match (if targetFileExists then readFileSync H w2 targetFilePath
                   else (inr EmptyString, w2)) with
            | (inl e, w3) =>
                (inr acc,
                 showMessage H w3 errorMessage
                             ("Error reading " ++ filePath change ++ ": "
                                ++ errorText H e))
            | (inr originalContent, w3) =>
                let newContent := applyPatchToContent originalContent change in
                let tempFilePath :=
                  pathJoin H workspaceRoot
                           (".temp_" ++ pathBasename H (filePath change)) in
                let tempDir := pathDirname H tempFilePath in
                let (tempDirExists, w4) := existsSync H w3 tempDir in
                match (if tempDirExists then (inr tt, w4)
                       else mkdirSync H w4 tempDir) with
                | (inl e, w5) => (inl e, w5)
                | (inr _, w5) =>
                    match writeFileSync H w5 tempFilePath newContent with
                    | (inl e, w6) =>
                        (inr acc,
                         showMessage H w6 errorMessage
                                     ("Error creating temp file for "
                                        ++ filePath change ++ ": "
                                        ++ errorText H e))
                    | (inr _, w6) =>
                        (inr (fst acc
                                ++ [mkSupported change targetFilePath
                                                tempFilePath newContent],
                              snd acc),
                         w6)
                    end
                end
            end
        end
  end.

(** The loop over [fileChanges]. *)
Fixpoint prepareChanges (H : Host) (workspaceRoot : string)
         (fileChanges : list FileChange) (acc : Prepared) (w : world H)
  : (hostError H + Prepared) * world H :=
  match fileChanges with
  | [] => (inr acc, w)
  | change :: rest =>
      match prepareChange H workspaceRoot acc change w with
      | (inl e, w') => (inl e, w')
      | (inr acc', w') => prepareChanges H workspaceRoot rest acc' w'
      end
  end.

(** A host for the examples: no file exists, every write succeeds, the
    world is the list of the messages shown and of the files written. *)
Definition quietHost : Host :=
  mkHost (list string) unit (fun _ => "error")
         (fun a b => (a ++ "/" ++ b)%string) (fun p => p) (fun p => p)
         (fun w _ => (false, w))
         (fun w _ => (inr false, w))
         (fun w _ => (inr EmptyString, w))
         (fun w _ => (inr tt, w))
         (fun w p _ => (inr tt, w ++ [p]))
         (fun w p => (inr tt, w ++ [p]))
         (fun w _ m => w ++ [m])
         (fun w m _ => w ++ [m]).

(** What the loop guarantees of an element of [supportedChanges]: its
    record is regular and not deleted, its paths are those of the record,
    and its new content is the applier's, on some original content. *)
Definition supportedOk (H : Host) (workspaceRoot : string)
           (fileChanges : list FileChange) (s : SupportedChange) : Prop :=
  In (sChange s) fileChanges
  /\ fileType (sChange s) = file
  /\ isDeleted (sChange s) = false
  /\ sTargetFilePath s = pathJoin H workspaceRoot (filePath (sChange s))
  /\ sTempFilePath s
     = pathJoin H workspaceRoot
                (".temp_" ++ pathBasename H (filePath (sChange s)))
  /\ exists originalContent,
       sNewContent s = applyPatchToContent originalContent (sChange s).

(** And of an element of [deletedFiles]. *)
Definition deletedOk (H : Host) (workspaceRoot : string)
           (fileChanges : list FileChange) (d : DeletedFile) : Prop :=
  In (dChange d) fileChanges
  /\ fileType (dChange d) = file
  /\ isDeleted (dChange d) = true
  /\ dTargetFilePath d = pathJoin H workspaceRoot (filePath (dChange d)).

(* ================================================================== *)
(** ** The backups of the preview and [rollbackChanges]

    Lines 329 to 334 and 470 to 501 of [src/extension.ts].  The [Map] of
    the backups is the list of its entries in the order of insertion. *)

Definition Backups : Type := list (string * string).

Fixpoint mapHas (m : Backups) (key : string) : bool :=
  match m with
  | [] => false
  | (k, _) :: rest => if String.eqb k key then true else mapHas rest key
  end.

Fixpoint mapGet (m : Backups) (key : string) : option string :=
  match m with
  | [] => None
  | (k, v) :: rest => if String.eqb k key then Some v else mapGet rest key
  end.

(** [m.set(key, value)]: the value of an entry that is there is
    replaced where it stands, a new entry goes last. *)
Fixpoint mapSet (m : Backups) (key value : string) : Backups :=
  match m with
  | [] => [(key, value)]
  | (k, v) :: rest =>
      if String.eqb k key then (k, value) :: rest
      else (k, v) :: mapSet rest key value
  end.

(** The loop that fills [backups]; a read that raises is not caught. *)
Fixpoint makeBackups (H : Host) (supportedChanges : list SupportedChange)
         (backups : Backups) (w : world H)
  : (hostError H + Backups) * world H :=
  match supportedChanges with
  | [] => (inr backups, w)
  | item :: rest =>
      let (targetExists, w1) := existsSync H w (sTargetFilePath item) in
      if targetExists then
        match readFileSync H w1 (sTargetFilePath item) with
        | (inl e, w2) => (inl e, w2)
        | (inr text, w2) =>
            makeBackups H rest (mapSet backups (sTargetFilePath item) text) w2
        end
      else makeBackups H rest backups w1
  end.

(** [try { fs.writeFileSync(path, text) } catch (error)
    { console.error(message, error) }] *)
Definition tryWrite (H : Host) (w : world H) (path text message : string)
  : world H :=
  match writeFileSync H w path text with
  | (inl e, w') => consoleError H w' message e
  | (inr _, w') => w'
  end.

(** The three loops of [rollbackChanges]. *)
Definition restoreBackups (H : Host) (backups : Backups) (w : world H)
  : world H :=
  fold_left (fun w0 entry =>
               tryWrite H w0 (fst entry) (snd entry)
                        ("Error restoring " ++ fst entry ++ ":"))
            backups w.

Definition restoreDeleted (H : Host) (backups : Backups)
           (deletedFiles : list DeletedFile) (w : world H) : world H :=
  fold_left (fun w0 item =>
               if mapHas backups (dTargetFilePath item) then
                 match mapGet backups (dTargetFilePath item) with
                 | Some text =>
                     tryWrite H w0 (dTargetFilePath item) text
                              ("Error restoring deleted file "
                                 ++ dTargetFilePath item ++ ":")
                 | None => w0
                 end
               else w0)
            deletedFiles w.

Definition removeNewFiles (H : Host) (supportedChanges : list SupportedChange)
           (w : world H) : world H :=
  fold_left (fun w0 item =>
               if isNew (sChange item) then
                 let (targetExists, w1) :=
                   existsSync H w0 (sTargetFilePath item) in
                 if targetExists then
                   match unlinkSync H w1 (sTargetFilePath item) with
                   | (inl e, w2) =>
                       consoleError H w2
                                    ("Error removing new file "
                                       ++ sTargetFilePath item ++ ":") e
                   | (inr _, w2) => w2
                   end
                 else w1
               else w0)
            supportedChanges w.

Definition rollbackChanges (H : Host) (supportedChanges : list SupportedChange)
           (backups : Backups) (deletedFiles : list DeletedFile)
           (w : world H) : world H :=
  removeNewFiles H supportedChanges
    (restoreDeleted H backups deletedFiles (restoreBackups H backups w)).

(** A host for the examples with a disk: the world is the list of the
    files with their contents; no operation raises but the read of a file
    that is not there. *)
Fixpoint removeFile (m : Backups) (key : string) : Backups :=
  match m with
  | [] => []
  | (k, v) :: rest =>
      if String.eqb k key then removeFile rest key
      else (k, v) :: removeFile rest key
  end.

Definition diskHost : Host :=
  mkHost Backups unit (fun _ => "error")
         (fun a b => (a ++ "/" ++ b)%string) (fun p => p) (fun p => p)
         (fun w p => (mapHas w p, w))
         (fun w _ => (inr false, w))
         (fun w p => (match mapGet w p with
                      | Some text => inr text
                      | None => inl tt
                      end, w))
         (fun w _ => (inr tt, w))
         (fun w p text => (inr tt, mapSet w p text))
         (fun w p => (inr tt, removeFile w p))
         (fun w _ _ => w)
         (fun w _ _ => w).

(* ================================================================== *)
(** ** Lemmas on the primitives *)

Section StringFacts.

Lemma prefix_empty (s : string) : String.prefix EmptyString s = true.
Proof. destruct s; reflexivity. Qed.

Lemma prefix_LF_cons (c : ascii) (s : string) :
  String.prefix JS.LF (String c s) = Ascii.eqb c JS.lf.
Proof.
  unfold JS.LF. cbn [String.prefix].
  destruct (ascii_dec JS.lf c) as [e | n].
  - subst c. rewrite Ascii.eqb_refl. apply prefix_empty.
  - symmetry. apply Ascii.eqb_neq. congruence.
Qed.

Lemma splitFrom_not_nil (sep : string) (s : string) :
  forall skip, JS.splitFrom sep skip s <> [].
Proof.
  induction s as [| c s IH]; intros skip; cbn [JS.splitFrom].
  - discriminate.
  - destruct skip as [| k].
    + destruct (String.prefix sep (String c s)); [discriminate |].
      destruct (JS.splitFrom sep 0 s); discriminate.
    + apply IH.
Qed.

Lemma split_not_nil (s sep : string) : JS.split s sep <> [].
Proof. apply splitFrom_not_nil. Qed.

(** The two equations of [split] on the line feed. *)
Lemma split_LF_empty : JS.split EmptyString JS.LF = [EmptyString].
Proof. reflexivity. Qed.

Lemma split_LF_cons (c : ascii) (s : string) :
  JS.split (String c s) JS.LF =
  if Ascii.eqb c JS.lf then EmptyString :: JS.split s JS.LF
  else match JS.split s JS.LF with
       | [] => [String c EmptyString]
       | piece :: pieces => String c piece :: pieces
       end.
Proof.
  unfold JS.split. cbn [JS.splitFrom].
  rewrite prefix_LF_cons. reflexivity.
Qed.

(** Joining what was split gives the text back. *)
Lemma join_split_LF (s : string) : JS.join (JS.split s JS.LF) JS.LF = s.
Proof.
  induction s as [| c s IH].
  - reflexivity.
  - rewrite split_LF_cons.
    destruct (Ascii.eqb c JS.lf) eqn:E.
    + apply Ascii.eqb_eq in E. subst c.
      pose proof (split_not_nil s JS.LF) as NN.
      unfold JS.join in *. cbn [String.concat].
      destruct (JS.split s JS.LF) as [| p ps]; [congruence |].
      rewrite IH. reflexivity.
    + pose proof (split_not_nil s JS.LF) as NN.
      unfold JS.join in *.
      destruct (JS.split s JS.LF) as [| p ps]; [congruence |].
      cbn [String.concat] in *.
      destruct ps as [| q qs].
      * rewrite IH. reflexivity.
      * cbn [String.append]. rewrite IH. reflexivity.
Qed.

(** Splitting distributes over a line feed in the text. *)
Lemma split_LF_app (a b : string) :
  JS.split (a ++ JS.LF ++ b) JS.LF = JS.split a JS.LF ++ JS.split b JS.LF.
Proof.
  induction a as [| c a IH].
  - cbn [String.append]. unfold JS.LF at 1. cbn [String.append].
    rewrite split_LF_cons. reflexivity.
  - cbn [String.append]. rewrite !split_LF_cons, IH.
    destruct (Ascii.eqb c JS.lf); [reflexivity |].
    pose proof (split_not_nil a JS.LF) as NN.
    destruct (JS.split a JS.LF); [congruence | reflexivity].
Qed.

(** A text without the separator is one piece. *)
Lemma split_one_piece (sep s : string) :
  JS.includes s sep = false -> JS.split s sep = [s].
Proof.
  unfold JS.split.
  induction s as [| c s IH]; intros H.
  - reflexivity.
  - cbn [JS.includes] in H. apply orb_false_iff in H as [Hp Hi].
    cbn [JS.splitFrom]. rewrite Hp, (IH Hi). reflexivity.
Qed.

Lemma removelast_snoc {A : Type} (l : list A) (x : A) :
  removelast (l ++ [x]) = l.
Proof. apply removelast_last. Qed.

End StringFacts.

(* ================================================================== *)
(** ** What the header pattern captures *)

Section RegexFacts.

Lemma string_length_app (a b : string) :
  String.length (a ++ b) = (String.length a + String.length b)%nat.
Proof.
  induction a as [| c a IH]; cbn [String.append String.length];
    [reflexivity | now rewrite IH].
Qed.

Lemma substring_prefix (pre s : string) :
  String.substring 0 (String.length pre) (pre ++ s) = pre.
Proof.
  induction pre as [| c pre IH]; cbn [String.append String.length].
  - destruct s; reflexivity.
  - cbn [String.substring]. now rewrite IH.
Qed.

Lemma consumed_app (pre s : string) : consumed (pre ++ s) s = pre.
Proof.
  unfold consumed. rewrite string_length_app.
  replace (String.length pre + String.length s - String.length s)%nat
    with (String.length pre) by lia.
  apply substring_prefix.
Qed.

(** The greedy repetition hands to its continuation what is left after
    a run of characters of the class. *)
Lemma starK_run (R : Type) (cl : cclass) (k : string -> option R)
      (res : R) (s : string) :
  starK R cl s k = Some res ->
  exists pre s',
    s = (pre ++ s')%string /\ allInClass cl pre = true /\ k s' = Some res.
Proof.
  induction s as [| c s IH]; cbn [starK]; intros H.
  - now exists EmptyString, EmptyString.
  - destruct (inClass cl c) eqn:Hc.
    + destruct (starK R cl s k) as [r |] eqn:E.
      * injection H as ->. destruct (IH eq_refl) as (pre & s' & -> & Hp & Hk).
        exists (String c pre), s'. cbn [String.append allInClass].
        now rewrite Hc.
      * now exists EmptyString, (String c s).
    + now exists EmptyString, (String c s).
Qed.

(** When every group of a pattern is a run of digits, the match hands
    over numerals only. *)
Lemma matchK_numerals (r : regex) :
  digitGroups r ->
  forall (R : Type) (s : string) (caps : captures)
         (k : string -> captures -> option R) (res : R),
    allNumerals caps ->
    matchK R r s caps k = Some res ->
    exists s' caps', allNumerals caps' /\ k s' caps' = Some res.
Proof.
  induction r as [cl | cl | cl | r1 IH1 r2 IH2 | r1 IH1 | i r1 IH1 |];
    intros Hr R s caps k res Hcaps H; cbn [matchK digitGroups] in *.
  - destruct s as [| c s]; [discriminate |].
    destruct (inClass cl c); [| discriminate]. now exists s, caps.
  - destruct (starK_run _ _ _ _ _ H) as (pre & s' & _ & _ & Hk).
    now exists s', caps.
  - destruct s as [| c s]; [discriminate |].
    destruct (inClass cl c); [| discriminate].
    destruct (starK_run _ _ _ _ _ H) as (pre & s' & _ & _ & Hk).
    now exists s', caps.
  - destruct Hr as [Hr1 Hr2].
    destruct (IH1 Hr1 _ _ _ _ _ Hcaps H) as (s1 & caps1 & Hc1 & H1).
    exact (IH2 Hr2 _ _ _ _ _ Hc1 H1).
  - destruct (matchK R r1 s caps k) as [x |] eqn:E.
    + injection H as ->. exact (IH1 Hr _ _ _ _ _ Hcaps E).
    + now exists s, caps.
  - subst r1. cbn [matchK] in H.
    destruct s as [| c s]; [discriminate |].
    destruct (inClass Digit c) eqn:Hc; [| discriminate].
    destruct (starK_run _ _ _ _ _ H) as (pre & s' & -> & Hp & Hk).
    exists s', ((i, String c pre) :: caps). split.
    + constructor; [| exact Hcaps]. cbn [snd isNumeral allInClass].
      now rewrite Hc.
    + change (String c (pre ++ s')) with (String c pre ++ s')%string in Hk.
      now rewrite consumed_app in Hk.
  - now exists s, caps.
Qed.

Lemma matchRegex_numerals (r : regex) (s : string) (m : captures) :
  digitGroups r -> matchRegex r s = Some m -> allNumerals m.
Proof.
  intros Hr. induction s as [| c s IH]; cbn [matchRegex]; intros H.
  - destruct (matchHere r EmptyString) as [caps |] eqn:E; [| discriminate].
    injection H as ->. unfold matchHere in E.
    destruct (matchK_numerals r Hr _ _ _ _ _ (Forall_nil _) E)
      as (_ & caps' & Hc & Hk).
    now injection Hk as ->.
  - destruct (matchHere r (String c s)) as [caps |] eqn:E; [| now apply IH].
    injection H as ->. unfold matchHere in E.
    destruct (matchK_numerals r Hr _ _ _ _ _ (Forall_nil _) E)
      as (_ & caps' & Hc & Hk).
    now injection Hk as ->.
Qed.

(** Every text the hunk-header pattern captures is a numeral: [parseInt]
    is only called on non-empty runs of digits. *)
Lemma hunkHeader_captures_numerals (line : string) (m : captures)
      (i : nat) (t : string) :
  matchRegex hunkHeaderPattern line = Some m ->
  capture i m = Some t -> isNumeral t = true.
Proof.
  intros Hm Hc.
  assert (Hall : allNumerals m).
  { apply (matchRegex_numerals hunkHeaderPattern line); [| exact Hm].
    cbn. repeat split. }
  clear Hm. induction Hall as [| [j u] m Hu _ IH]; [discriminate |].
  cbn [capture] in Hc. destruct (Nat.eqb i j).
  - injection Hc as <-. exact Hu.
  - now apply IH.
Qed.

End RegexFacts.

Section SpliceFacts.
Context {A : Type}.

(** [splice] when the start lies in the array and nothing is clamped. *)
Lemma splice_in_range (a : list A) (start deleteCount : Z) (items : list A) :
  (0 <= start)%Z -> (0 <= deleteCount)%Z ->
  (start + deleteCount <= Z.of_nat (length a))%Z ->
  JS.splice a start deleteCount items =
  firstn (Z.to_nat start) a ++ items
    ++ skipn (Z.to_nat start + Z.to_nat deleteCount) a.
Proof.
  intros Hs Hd Hr. unfold JS.splice.
  destruct (Z.ltb_spec start 0) as [Hlt | _]; [lia |].
  rewrite (Z.min_l start) by lia.
  rewrite (Z.max_l deleteCount) by lia.
  rewrite (Z.min_l deleteCount) by lia.
  rewrite Z2Nat.inj_add by lia. reflexivity.
Qed.

(** Whatever the arguments, [splice] keeps the lines before a
    non-negative start that lies in the array. *)
Lemma splice_keeps_prefix (a : list A) (start deleteCount : Z)
      (items : list A) (n : nat) :
  (Z.of_nat n <= start)%Z -> (n <= length a)%nat ->
  firstn n (JS.splice a start deleteCount items) = firstn n a.
Proof.
  intros Hn Hl. unfold JS.splice.
  destruct (Z.ltb_spec start 0) as [Hlt | Hge]; [lia |].
  set (k := Z.to_nat (Z.min start (Z.of_nat (length a)))).
  assert (Hk : (n <= k)%nat) by (unfold k; lia).
  assert (Hkl : (k <= length a)%nat) by (unfold k; lia).
  rewrite firstn_app.
  rewrite firstn_firstn, Nat.min_l by exact Hk.
  rewrite length_firstn, Nat.min_l by exact Hkl.
  replace (n - k)%nat with 0%nat by lia.
  cbn [firstn]. apply app_nil_r.
Qed.

Lemma slice_rebuild (a : list A) (k n : nat) :
  firstn k a ++ firstn n (skipn k a) ++ skipn (k + n) a = a.
Proof.
  rewrite Nat.add_comm, <- skipn_skipn.
  rewrite (firstn_skipn n (skipn k a)).
  apply firstn_skipn.
Qed.

End SpliceFacts.

Lemma linesToInsert_context (body : list string) :
  Forall isContextLine body ->
  linesToInsert body = map (fun l => JS.substring l 1) body.
Proof.
  induction 1 as [| l body Hl _ IH]; [reflexivity |].
  cbn [linesToInsert map]. unfold isContextLine, tagOf in Hl.
  destruct (JS.startsWith l "+"); [discriminate |].
  destruct (JS.startsWith l "-" || JS.startsWith l (String JS.backslash ""));
    [discriminate |].
  now rewrite IH.
Qed.

Lemma apply_no_hunks (original : string) (change : FileChange) :
  hunks change = [] -> applyPatchToContent original change = original.
Proof.
  intros H. unfold applyPatchToContent. rewrite H. cbn.
  apply join_split_LF.
Qed.

(* ================================================================== *)
(** ** The applier on one hunk *)

(** C2: on the original ["a\nb\ne\n"] and a regular FileChange whose only
    hunk is [-1,3 +1,4] with the body [ a], [-b], [+c], [+d], [ e], the
    applier returns exactly ["a\nc\nd\ne\n"], whatever the path and the
    two flags of the record. *)
Theorem C2_apply_fixture (path : string) (n d : bool) :
  applyPatchToContent
    ("a" ++ JS.LF ++ "b" ++ JS.LF ++ "e" ++ JS.LF)
    (mkFileChange path file n d
       [mkHunk 1 3 1 4
          (" a" ++ JS.LF ++ "-b" ++ JS.LF ++ "+c" ++ JS.LF ++ "+d"
                ++ JS.LF ++ " e")])
  = ("a" ++ JS.LF ++ "c" ++ JS.LF ++ "d" ++ JS.LF ++ "e" ++ JS.LF)%string.
Proof. reflexivity. Qed.

(** C8: for a FileChange with a single hunk whose body has only context
    lines, whose [oldLineCount] is the number of those lines, and whose
    texts are the original's lines at [oldStartLine], the applier returns
    the original.  The equation on the slice also says that the hunk's
    range lies within the original. *)
Theorem C8_context_only_hunk_is_identity
        (original : string) (change : FileChange) (h : Hunk) :
  fileType change = file ->
  hunks change = [h] ->
  Forall isContextLine (JS.split (content h) JS.LF) ->
  oldLineCount h = Z.of_nat (length (JS.split (content h) JS.LF)) ->
  (1 <= oldStartLine h)%Z ->
  firstn (length (JS.split (content h) JS.LF))
         (skipn (Z.to_nat (oldStartLine h - 1)) (JS.split original JS.LF))
  = map (fun l => JS.substring l 1) (JS.split (content h) JS.LF) ->
  applyPatchToContent original change = original.
Proof.
  intros _ Hh Hctx Hcount Hstart Hslice.
  unfold applyPatchToContent. rewrite Hh. cbn [sortHunks insertHunk applyLines fold_left].
  unfold applyHunk.
  rewrite (linesToInsert_context _ Hctx).
  set (body := JS.split (content h) JS.LF) in *.
  set (L := JS.split original JS.LF) in *.
  set (k := Z.to_nat (oldStartLine h - 1)) in *.
  assert (Hlen : (k + length body <= length L)%nat).
  { apply (f_equal (@length string)) in Hslice.
    rewrite length_map, length_firstn, length_skipn in Hslice.
    pose proof (split_not_nil (content h) JS.LF) as NN. fold body in NN.
    destruct body; [congruence | cbn [length] in *; lia]. }
  rewrite splice_in_range by lia.
  rewrite Hcount, Nat2Z.id. fold k.
  rewrite <- Hslice, slice_rebuild.
  apply join_split_LF.
Qed.

(** Two context lines in the middle of a four-line file. *)
Lemma C8_witness :
  applyPatchToContent
    ("x" ++ JS.LF ++ "a" ++ JS.LF ++ "b" ++ JS.LF ++ "y")
    (mkFileChange "f" file false false
                  [mkHunk 2 2 2 2 (" a" ++ JS.LF ++ " b")])
  = ("x" ++ JS.LF ++ "a" ++ JS.LF ++ "b" ++ JS.LF ++ "y")%string.
Proof.
  apply (C8_context_only_hunk_is_identity _ _
           (mkHunk 2 2 2 2 (" a" ++ JS.LF ++ " b"))).
  - reflexivity.
  - reflexivity.
  - repeat constructor.
  - reflexivity.
  - cbn. lia.
  - reflexivity.
Defined.

(* ================================================================== *)
(** ** The applier has no guard *)

(** C5, at concrete inputs: given a directory record, a binary record and
    a deleted record without hunks, the applier returns content (the
    original), where the claim has it reject them. *)
Lemma C5_counterexample :
  applyPatchToContent ("x" ++ JS.LF ++ "y")
                      (mkFileChange "dir" directory false false [])
  = ("x" ++ JS.LF ++ "y")%string
  /\ applyPatchToContent ("x" ++ JS.LF ++ "y")
                         (mkFileChange "logo.png" binary false false [])
     = ("x" ++ JS.LF ++ "y")%string
  /\ applyPatchToContent ("x" ++ JS.LF ++ "y")
                         (mkFileChange "gone.txt" file false true [])
     = ("x" ++ JS.LF ++ "y")%string.
Proof. repeat split; reflexivity. Qed.

(** C5, amended: the applier never looks at the kind or at the flags.
    On a record that is a directory, a binary file, or deleted without
    hunks, it returns what it returns on the regular, not deleted record
    with the same hunks; and when the record has no hunks, as every
    directory and binary record of the parser, that is the original
    content unchanged. *)
Theorem C5_apply_has_no_guard (original : string) (change : FileChange) :
  fileType change = directory \/ fileType change = binary
  \/ (isDeleted change = true /\ hunks change = []) ->
  applyPatchToContent original change
  = applyPatchToContent original
      (mkFileChange (filePath change) file (isNew change) false (hunks change))
  /\ (hunks change = [] -> applyPatchToContent original change = original).
Proof.
  intros _. split; [reflexivity | apply apply_no_hunks].
Qed.

(** A directory record without hunks. *)
Lemma C5_witness :
  applyPatchToContent "keep" (mkFileChange "dir" directory false false [])
  = "keep".
Proof.
  apply (C5_apply_has_no_guard "keep"
           (mkFileChange "dir" directory false false [])).
  - left. reflexivity.
  - reflexivity.
Defined.

(* ================================================================== *)
(** ** Segments and their lines *)

Section SegmentFacts.

Lemma string_app_assoc (a b c : string) :
  ((a ++ b) ++ c = a ++ (b ++ c))%string.
Proof.
  induction a as [| x a IH]; cbn [String.append]; [reflexivity |].
  now rewrite IH.
Qed.

Lemma prefix_app_same (p s : string) : String.prefix p (p ++ s) = true.
Proof.
  induction p as [| c p IH]; cbn [String.append String.prefix].
  - apply prefix_empty.
  - destruct (ascii_dec c c); [exact IH | congruence].
Qed.

Lemma prefix_app_mono (p a b : string) :
  String.prefix p a = true -> String.prefix p (a ++ b) = true.
Proof.
  revert p. induction a as [| c a IH]; intros p H.
  - destruct p; [apply prefix_empty | discriminate].
  - destruct p as [| x p]; [reflexivity |].
    cbn [String.append String.prefix] in *.
    destruct (ascii_dec x c); [now apply IH | discriminate].
Qed.

Lemma includes_app_mono (a b p : string) :
  JS.includes a p = true -> JS.includes (a ++ b) p = true.
Proof.
  induction a as [| c a IH]; intros H.
  - cbn [JS.includes] in H. rewrite orb_false_r in H.
    destruct p; [| discriminate].
    destruct b; reflexivity.
  - cbn [String.append JS.includes] in *.
    apply orb_true_iff in H as [H | H].
    + pose proof (prefix_app_mono p (String c a) b H) as E.
      cbn [String.append] in E. rewrite E. reflexivity.
    + rewrite (IH H). apply orb_true_r.
Qed.

Lemma splitFrom_skip (sep t s : string) :
  JS.splitFrom sep (String.length t) (t ++ s) = JS.splitFrom sep 0 s.
Proof.
  induction t as [| c t IH]; cbn [String.length String.append].
  - destruct s; reflexivity.
  - cbn [JS.splitFrom]. exact IH.
Qed.

(** A text that starts with the separator: an empty first piece. *)
Lemma split_sep_head (c : ascii) (sep' s : string) :
  JS.split (String c sep' ++ s) (String c sep')
  = EmptyString :: JS.split s (String c sep').
Proof.
  unfold JS.split.
  change (String c sep' ++ s)%string with (String c (sep' ++ s)).
  cbn [JS.splitFrom].
  change (String c (sep' ++ s)) with (String c sep' ++ s)%string.
  rewrite prefix_app_same.
  replace (String.length (String c sep') - 1)%nat with (String.length sep')
    by (cbn [String.length]; lia).
  now rewrite splitFrom_skip.
Qed.

(** The line array of a segment: the text after the last line feed is
    what [pop] removes. *)
Lemma segmentLines_app (s last : string) :
  JS.includes last JS.LF = false ->
  segmentLines (s ++ JS.LF ++ last) = JS.split s JS.LF.
Proof.
  intros H. unfold segmentLines, JS.pop.
  rewrite split_LF_app, (split_one_piece _ _ H).
  apply removelast_snoc.
Qed.

Lemma segmentLines_no_LF (last : string) :
  JS.includes last JS.LF = false -> segmentLines last = [].
Proof.
  intros H. unfold segmentLines, JS.pop.
  now rewrite (split_one_piece _ _ H).
Qed.

(** A text made of the marker and one segment. *)
Lemma segments_single (seg : string) :
  JS.includes seg "diff --git" = false ->
  segments ("diff --git" ++ seg) = [seg].
Proof.
  intros H. unfold segments.
  rewrite split_sep_head, (split_one_piece _ _ H). reflexivity.
Qed.

Lemma parsePatchFile_single (seg : string) :
  JS.includes seg "diff --git" = false ->
  parsePatchFile ("diff --git" ++ seg) =
  match parseSegment seg with
  | Thrown e => Thrown e
  | Returned None => Returned []
  | Returned (Some fc) => Returned [fc]
  end.
Proof.
  intros H. unfold parsePatchFile. rewrite (segments_single _ H).
  cbn [map parseAll]. unfold parseSegment.
  destruct (parseLines (segmentLines seg)) as [[fc |] | e]; reflexivity.
Qed.

End SegmentFacts.

(** C10: the parser works on each segment's lines without the last
    element of the split.  So what follows the segment's last line feed
    never reaches the record: the empty text when the segment ends with a
    line feed, the whole last line when it does not.  For a regular file
    that last line is the final body line of the last hunk, as in the
    fixture, where [ e] is lost. *)
Theorem C10_final_line_is_discarded (patchContent s last : string) :
  JS.includes last JS.LF = false ->
  parsePatchFile patchContent
  = parseAll (map (fun seg => removelast (JS.split seg JS.LF))
                  (segments patchContent)) []
  /\ segmentLines (s ++ JS.LF ++ last) = JS.split s JS.LF
  /\ segmentLines (s ++ JS.LF) = JS.split s JS.LF
  /\ parseSegment (s ++ JS.LF ++ last) = parseSegment (s ++ JS.LF)
  /\ (JS.includes (s ++ JS.LF ++ last) "diff --git" = false ->
      parsePatchFile ("diff --git" ++ s ++ JS.LF ++ last)
      = parsePatchFile ("diff --git" ++ s ++ JS.LF))
  /\ parsePatchFile diff_abe_cut
     = Returned [mkFileChange "f.txt" file false false
                   [mkHunk 1 3 1 4
                      (" a" ++ JS.LF ++ "-b" ++ JS.LF ++ "+c" ++ JS.LF ++ "+d")]].
Proof.
  intros Hlast.
  assert (Hcut : segmentLines (s ++ JS.LF ++ last) = JS.split s JS.LF)
    by exact (segmentLines_app s last Hlast).
  assert (Hnl : segmentLines (s ++ JS.LF) = JS.split s JS.LF).
  { change (s ++ JS.LF)%string with (s ++ JS.LF ++ "")%string.
    now apply segmentLines_app. }
  repeat split.
  - exact Hcut.
  - exact Hnl.
  - unfold parseSegment. now rewrite Hcut, Hnl.
  - intros Hmark.
    assert (Hmark' : JS.includes (s ++ JS.LF) "diff --git" = false).
    { destruct (JS.includes (s ++ JS.LF) "diff --git") eqn:E; [| reflexivity].
      apply (includes_app_mono _ last) in E.
      rewrite string_app_assoc in E. congruence. }
    rewrite !parsePatchFile_single by assumption.
    unfold parseSegment. now rewrite Hcut, Hnl.
Qed.

(** A segment whose last line is not ended by a line feed. *)
Lemma C10_witness :
  segmentLines ("@@ -1 +1 @@" ++ JS.LF ++ "+kept" ++ JS.LF ++ "+lost")
  = ["@@ -1 +1 @@"; "+kept"].
Proof.
  exact (proj1 (proj2
    (C10_final_line_is_discarded EmptyString
       ("@@ -1 +1 @@" ++ JS.LF ++ "+kept") "+lost" eq_refl))).
Defined.

(* ================================================================== *)
(** ** The outer loop and the header loop *)

Section ParserFacts.




(** Every record of the result was made by the loop body on one of the
    line arrays, or was there before. *)
Lemma parseAll_In (liness : list (list string)) :
  forall acc fcs fc,
    parseAll liness acc = Returned fcs -> In fc fcs ->
    In fc acc \/
    exists lines, In lines liness /\ parseLines lines = Returned (Some fc).
Proof.
  induction liness as [| lines rest IH]; intros acc fcs fc H Hin.
  - cbn in H. injection H as <-. now left.
  - cbn [parseAll] in H.
    destruct (parseLines lines) as [[fc' |] | e] eqn:E; [| | discriminate].
    + destruct (IH _ _ _ H Hin) as [Hacc | [ls [Hls Hp]]].
      * apply in_app_or in Hacc as [Hacc | [<- | []]].
        -- now left.
        -- right. exists lines. split; [now left | exact E].
      * right. exists ls. split; [now right | exact Hp].
    + destruct (IH _ _ _ H Hin) as [Hacc | [ls [Hls Hp]]].
      * now left.
      * right. exists ls. split; [now right | exact Hp].
Qed.

(** The loop body raises on the empty line array only. *)
Lemma parseLines_returns (line0 : string) (rest : list string) :
  exists r, parseLines (line0 :: rest) = Returned r.
Proof.
  unfold parseLines.
  destruct (filePathMatch line0) as [m |]; [| now eexists].
  destruct (scanHeader (headerLines (line0 :: rest)) false false)
    as [[ft n] d].
  destruct ft; now eexists.
Qed.

Lemma parseAll_returns (liness : list (list string)) :
  Forall (fun lines => lines <> []) liness ->
  forall acc, exists fcs, parseAll liness acc = Returned fcs.
Proof.
  induction 1 as [| lines rest Hne _ IH]; intros acc.
  - now eexists.
  - cbn [parseAll]. destruct lines as [| line0 ls]; [congruence |].
    destruct (parseLines_returns line0 ls) as [[fc |] ->]; apply IH.
Qed.

(** A segment whose path line matches neither pattern leaves no record
    and the loop goes on. *)
Lemma parseAll_skips (lines : list string) (rest : list (list string))
      (acc : list FileChange) (line0 : string) (ls : list string) :
  lines = line0 :: ls -> filePathMatch line0 = None ->
  parseAll (lines :: rest) acc = parseAll rest acc.
Proof.
  intros -> H. cbn [parseAll]. unfold parseLines. now rewrite H.
Qed.

(** A segment with a line feed has a first line, and a text made of such
    segments is parsed without an exception. *)
Lemma segmentLines_not_nil (seg : string) :
  JS.includes seg JS.LF = true -> segmentLines seg <> [].
Proof.
  unfold segmentLines, JS.pop.
  induction seg as [| c seg IH]; [discriminate |].
  intros H. rewrite split_LF_cons.
  pose proof (split_not_nil seg JS.LF) as NN.
  destruct (Ascii.eqb c JS.lf) eqn:E.
  - destruct (JS.split seg JS.LF); [congruence | discriminate].
  - cbn [JS.includes] in H. rewrite prefix_LF_cons, E in H.
    cbn [orb] in H. specialize (IH H).
    destruct (JS.split seg JS.LF) as [| p [| q ps]]; try congruence.
    + cbn in IH. congruence.
    + discriminate.
Qed.

Lemma parsePatchFile_returns (patchContent : string) :
  Forall (fun seg => JS.includes seg JS.LF = true) (segments patchContent) ->
  exists fcs, parsePatchFile patchContent = Returned fcs.
Proof.
  intros H. unfold parsePatchFile. apply parseAll_returns.
  induction H as [| seg segs Hseg _ IH]; cbn [map]; constructor;
    [now apply segmentLines_not_nil | exact IH].
Qed.

End ParserFacts.


(** A new file whose first added line quotes the other marker: the line
    is the sixth after the path line, the loop over the header visits it
    and the record has both flags. *)
Lemma header_loop_visits_added_line :
  parsePatchFile diff_both_flags
  = Returned [mkFileChange "notes.txt" file true true
                [mkHunk 0 0 1 1 "+see the deleted file mode line"]].
Proof. vm_compute. reflexivity. Qed.




(* ================================================================== *)
(** ** The hunk loop *)

Section HunkLoopFacts.

Lemma string_app_empty_r (s : string) : (s ++ "")%string = s.
Proof. induction s as [| c s IH]; cbn [String.append]; congruence. Qed.

Lemma dropFinalLF_prefix (s : string) :
  String.prefix (JS.dropFinalLF s) s = true.
Proof.
  induction s as [| c s IH]; [reflexivity |].
  cbn [JS.dropFinalLF]. destruct s as [| c' s'].
  - destruct (Ascii.eqb c JS.lf); [reflexivity |].
    cbn [String.prefix]. destruct (ascii_dec c c); [reflexivity | congruence].
  - cbn [String.prefix]. destruct (ascii_dec c c); [exact IH | congruence].
Qed.

Lemma dropFinalLF_app (a b : string) :
  b <> EmptyString ->
  JS.dropFinalLF (a ++ b) = (a ++ JS.dropFinalLF b)%string.
Proof.
  intros Hb. induction a as [| c a IH]; [reflexivity |].
  cbn [String.append JS.dropFinalLF].
  destruct (a ++ b)%string eqn:E.
  - destruct a; [cbn in E; congruence | discriminate].
  - now rewrite IH.
Qed.

Lemma dropFinalLF_unlines (body : list string) :
  JS.dropFinalLF (unlines body) = JS.join body JS.LF.
Proof.
  induction body as [| l rest IH]; [reflexivity |].
  cbn [unlines]. unfold JS.join in *. cbn [String.concat].
  destruct rest as [| l' rest'].
  - cbn [unlines]. rewrite dropFinalLF_app by discriminate.
    cbn. apply string_app_empty_r.
  - rewrite dropFinalLF_app.
    + rewrite dropFinalLF_app.
      * now rewrite IH.
      * cbn [unlines]. destruct l'; discriminate.
    + discriminate.
Qed.

(** Lines without the marker, met while a hunk is open, join its body. *)
Lemma hunkStep_body (body : list string) :
  Forall (fun l => JS.startsWith l "@@" = false) body ->
  forall h hs,
    fold_left hunkStep body (mkScan true h hs)
    = mkScan true (appendBody h (unlines body)) hs.
Proof.
  induction 1 as [| l rest Hl _ IH]; intros h hs.
  - cbn [fold_left unlines]. unfold appendBody.
    rewrite string_app_empty_r. now destruct h.
  - cbn [fold_left unlines]. unfold hunkStep at 2. rewrite Hl.
    cbn [inHunk currentHunk pushed]. rewrite IH.
    unfold appendBody. cbn [oldStartLine oldLineCount newStartLine newLineCount content].
    now rewrite !string_app_assoc.
Qed.

(** Lines without the marker, met while no hunk is open, are passed. *)
Lemma hunkStep_before (hs : list string) :
  Forall (fun l => JS.startsWith l "@@" = false) hs ->
  forall st, inHunk st = false -> fold_left hunkStep hs st = st.
Proof.
  induction 1 as [| l rest Hl _ IH]; intros st Hst; [reflexivity |].
  cbn [fold_left]. unfold hunkStep at 2. rewrite Hl, Hst. now apply IH.
Qed.

(** A header that matches, met while no hunk is open, and the body
    after it: one hunk with the header's numbers and the body as it
    stands. *)
Lemma findHunks_one (header : string) (body : list string) (mh : captures) :
  JS.startsWith header "@@" = true ->
  matchRegex hunkHeaderPattern header = Some mh ->
  Forall (fun l => JS.startsWith l "@@" = false) body ->
  findHunks (header :: body)
  = [mkHunk (startOf 1 mh) (countOr1 2 mh) (startOf 3 mh) (countOr1 4 mh)
            (JS.join body JS.LF)].
Proof.
  intros Hm Hh Hb.
  assert (E : hunkStep initialScan header = mkScan true (hunkOfHeader mh) []).
  { unfold hunkStep. rewrite Hm, Hh. reflexivity. }
  unfold findHunks. cbn [fold_left]. rewrite E, (hunkStep_body _ Hb).
  cbn [inHunk]. unfold closeHunk, appendBody, hunkOfHeader.
  cbn [pushed currentHunk oldStartLine oldLineCount newStartLine newLineCount
       content app String.append].
  now rewrite dropFinalLF_unlines.
Qed.

End HunkLoopFacts.

(* ================================================================== *)
(** ** Line accounting *)

(** C4, at a concrete input: the header announces three old and four new
    lines, the body has one context line, and the parser returns the
    hunk, with no error. *)
Lemma C4_counterexample :
  parsePatchFile diff_short_body
  = Returned [mkFileChange "f.txt" file false false [mkHunk 1 3 1 4 " a"]]
  /\ taggedBody (mkHunk 1 3 1 4 " a") = [(context, "a")].
Proof. split; reflexivity. Qed.

(** C4, amended: the parser does no line accounting.  A hunk header that
    matches, followed by any lines that do not begin with the marker,
    yields the hunk with the header's four numbers and those lines as its
    body, however many of them are added, removed or context lines; and
    the segment's record is returned, with no error. *)
Theorem C4_counts_are_not_checked
        (line0 header : string) (body : list string) (m mh : captures) :
  filePathMatch line0 = Some m ->
  JS.startsWith header "@@" = true ->
  matchRegex hunkHeaderPattern header = Some mh ->
  Forall (fun l => JS.startsWith l "@@" = false) body ->
  findHunks (header :: body)
  = [mkHunk (startOf 1 mh) (countOr1 2 mh) (startOf 3 mh) (countOr1 4 mh)
            (JS.join body JS.LF)]
  /\ exists ft n d hs,
      parseLines (line0 :: header :: body)
      = Returned (Some (mkFileChange (targetFilePath m) ft n d hs))
      /\ (ft = file -> hs = findHunks (header :: body)).
Proof.
  intros Hp Hm Hh Hb. split; [now apply findHunks_one |].
  unfold parseLines. rewrite Hp.
  destruct (scanHeader (headerLines (line0 :: header :: body)) false false)
    as [[ft n] d].
  destruct ft.
  - exists file, n, d, (findHunks (header :: body)). now split.
  - exists directory, n, d, []. split; [reflexivity | discriminate].
  - exists binary, n, d, []. split; [reflexivity | discriminate].
Qed.

(** A header that announces five old lines, before one added line. *)
Lemma C4_witness :
  findHunks ["@@ -7,5 +7 @@"; "+only"]
  = [mkHunk 7 5 7 1 "+only"].
Proof.
  refine (proj1 (C4_counts_are_not_checked
                  " a/f b/f" "@@ -7,5 +7 @@" ["+only"]
                  [(2, "f"); (1, "f")]%nat
                  [(3, "7"); (2, "5"); (1, "7")]%nat
                  eq_refl eq_refl eq_refl _)).
  repeat constructor.
Defined.

(* ================================================================== *)
(** ** The segment without a line feed *)

(** C6, the failing input and its kin: a text whose only segment holds
    no line feed.  Its line array is empty once popped, [lines[0]] is
    [undefined] and the call of [match] on it raises: the parser does not
    return. *)
Theorem C6_parse_raises_without_line_feed (last : string) :
  JS.includes last JS.LF = false ->
  JS.includes last "diff --git" = false ->
  parsePatchFile ("diff --git" ++ last) = Thrown TypeError.
Proof.
  intros Hlf Hmark. rewrite (parsePatchFile_single _ Hmark).
  unfold parseSegment. now rewrite (segmentLines_no_LF _ Hlf).
Qed.

(** The path line alone, with no line feed after it. *)
Lemma C6_witness :
  parsePatchFile "diff --git a/x.txt b/x.txt" = Thrown TypeError.
Proof.
  apply (C6_parse_raises_without_line_feed " a/x.txt b/x.txt");
    reflexivity.
Defined.

(* ================================================================== *)
(** ** The marker line that is no header *)

(** C7, the failing input and its kin.  A line that begins with the
    marker and fails the header pattern is met while a hunk is open: the
    loop trims the final line feed of the open hunk's body and pushes a
    copy of the hunk, before it tests the pattern, and then leaves the
    hunk open.  The line itself is appended to no body.  So the open hunk
    is both closed and kept: it comes out once as it stood at the line
    and once more at its end, and the body line that follows is glued to
    the one before the marker line.  On the failing input the result is
    two hunks, the bodies one line and the two lines glued, where the
    claim has one hunk whose body holds the three lines.  When no hunk is
    open the line changes nothing, as the claim says. *)
Theorem C7_marker_line_pushes_open_hunk (st : HunkScan) (line : string) :
  JS.startsWith line "@@" = true ->
  matchRegex hunkHeaderPattern line = None ->
  let trimmed :=
    mkHunk (oldStartLine (currentHunk st)) (oldLineCount (currentHunk st))
           (newStartLine (currentHunk st)) (newLineCount (currentHunk st))
           (JS.dropFinalLF (content (currentHunk st))) in
  (inHunk st = true ->
   hunkStep st line = mkScan true trimmed (pushed st ++ [trimmed]))
  /\ (inHunk st = false -> hunkStep st line = st)
  /\ parsePatchFile diff_bogus_marker
     = Returned [mkFileChange "f.txt" file false false
                   [mkHunk 1 2 1 2 " a"; mkHunk 1 2 1 2 " a+b"]]
  /\ parsePatchFile diff_bogus_marker
     <> Returned [mkFileChange "f.txt" file false false
                    [mkHunk 1 2 1 2
                       (" a" ++ JS.LF ++ "@@ bogus" ++ JS.LF ++ "+b")]].
Proof.
  intros Hm Hh trimmed.
  assert (Hstep : hunkStep st line = if inHunk st then closeHunk st else st).
  { unfold hunkStep. now rewrite Hm, Hh. }
  assert (E : parsePatchFile diff_bogus_marker
              = Returned [mkFileChange "f.txt" file false false
                            [mkHunk 1 2 1 2 " a"; mkHunk 1 2 1 2 " a+b"]])
    by reflexivity.
  split; [| split; [| split]].
  - intros Hin. rewrite Hstep, Hin. unfold closeHunk. now rewrite Hin.
  - intros Hin. now rewrite Hstep, Hin.
  - exact E.
  - rewrite E. discriminate.
Qed.

(** The loop's state on the failing input when it meets [@@ bogus]: the
    hunk of [@@ -1,2 +1,2 @@] is open and holds the line [ a]. *)
Lemma C7_witness :
  hunkStep (mkScan true (mkHunk 1 2 1 2 (" a" ++ JS.LF)) []) "@@ bogus"
  = mkScan true (mkHunk 1 2 1 2 " a") [mkHunk 1 2 1 2 " a"].
Proof.
  refine (proj1 (C7_marker_line_pushes_open_hunk
                   (mkScan true (mkHunk 1 2 1 2 (" a" ++ JS.LF)) [])
                   "@@ bogus" _ _) _).
  - reflexivity.
  - vm_compute. reflexivity.
  - reflexivity.
Defined.

(* ================================================================== *)
(** ** The fixture of the parser *)

Section FixtureFacts.

Lemma Forall_firstn_keep {A : Type} (P : A -> Prop) (n : nat) (l : list A) :
  Forall P l -> Forall P (firstn n l).
Proof.
  intros H. revert n. induction H as [| x l Hx _ IH]; intros [| n];
    cbn [firstn]; auto.
Qed.

Lemma split_unlines (ls : list string) :
  Forall (fun l => JS.includes l JS.LF = false) ls ->
  JS.split (unlines ls) JS.LF = ls ++ [EmptyString].
Proof.
  induction 1 as [| l rest Hl _ IH]; [reflexivity |].
  cbn [unlines]. rewrite split_LF_app, (split_one_piece _ _ Hl), IH.
  reflexivity.
Qed.

Lemma segmentLines_unlines (ls : list string) :
  Forall (fun l => JS.includes l JS.LF = false) ls ->
  segmentLines (unlines ls) = ls.
Proof.
  intros H. unfold segmentLines, JS.pop. rewrite (split_unlines _ H).
  apply removelast_snoc.
Qed.

(** A text without line feed that occurs in a sequence of lines occurs in
    one of the lines. *)
Lemma prefix_before_LF (a b : string) :
  forall p, JS.includes p JS.LF = false ->
    String.prefix p (a ++ JS.LF ++ b) = true -> String.prefix p a = true.
Proof.
  induction a as [| c a IH]; intros p Hp H.
  - destruct p as [| x p]; [reflexivity |].
    cbn [JS.includes] in Hp. rewrite prefix_LF_cons in Hp.
    apply orb_false_iff in Hp as [Hx _].
    cbn [String.append] in H. unfold JS.LF in H. cbn [String.append] in H.
    cbn [String.prefix] in H.
    destruct (ascii_dec x JS.lf) as [-> | _]; [| discriminate].
    now rewrite Ascii.eqb_refl in Hx.
  - destruct p as [| x p]; [reflexivity |].
    cbn [String.append String.prefix] in *.
    destruct (ascii_dec x c); [| discriminate].
    apply IH; [| exact H].
    cbn [JS.includes] in Hp. now apply orb_false_iff in Hp as [_ Hp].
Qed.

Lemma includes_lines (a b p : string) :
  JS.includes p JS.LF = false ->
  JS.includes a p = false -> JS.includes b p = false ->
  JS.includes (a ++ JS.LF ++ b) p = false.
Proof.
  intros Hp Ha Hb. induction a as [| c a IH].
  - cbn [String.append]. unfold JS.LF. cbn [String.append JS.includes].
    rewrite Hb, orb_false_r.
    destruct (String.prefix p (String JS.lf b)) eqn:E; [| reflexivity].
    apply (prefix_before_LF EmptyString b p Hp) in E.
    cbn [JS.includes] in Ha. now rewrite E in Ha.
  - cbn [JS.includes] in Ha. apply orb_false_iff in Ha as [Hpre Ha].
    cbn [String.append JS.includes]. rewrite (IH Ha), orb_false_r.
    destruct (String.prefix p (String c (a ++ JS.LF ++ b))) eqn:E;
      [| reflexivity].
    apply (prefix_before_LF (String c a) b p Hp) in E. congruence.
Qed.

Lemma includes_unlines (ls : list string) (p : string) :
  JS.includes p JS.LF = false -> p <> EmptyString ->
  Forall (fun l => JS.includes l p = false) ls ->
  JS.includes (unlines ls) p = false.
Proof.
  intros Hp Hne H. induction H as [| l rest Hl _ IH].
  - cbn. destruct p; [congruence | reflexivity].
  - cbn [unlines]. now apply includes_lines.
Qed.

(** Without a binary or a directory line the header loop runs to its end
    and the kind stays [file]. *)
Lemma scanHeader_file (ls : list string) :
  Forall (fun l => JS.includes l "Binary files" = false
                   /\ isDirectoryLine l = false) ls ->
  forall n0 d0, exists n d, scanHeader ls n0 d0 = (file, n, d).
Proof.
  induction 1 as [| l rest [Hb Hd] _ IH]; intros n0 d0.
  - now exists n0, d0.
  - cbn [scanHeader]. rewrite Hb, Hd. apply IH.
Qed.

End FixtureFacts.

(** C3: a single-file diff made of a path line that matches, any header
    lines that are neither classification tokens nor markers, the
    header [@@ -1,3 +1,4 @@] and the body [ a], [-b], [+c], [+d], [ e],
    each line ended by a line feed, parses to one FileChange with exactly
    one hunk: old start 1, old count 3, new start 1, new count 4, and the
    body context a, removed b, added c, added d, context e. *)
Theorem C3_parse_fixture (line0 : string) (hs : list string) (m : captures) :
  filePathMatch line0 = Some m ->
  JS.includes line0 JS.LF = false ->
  JS.includes line0 "diff --git" = false ->
  Forall plainHeaderLine hs ->
  exists n d h,
    parsePatchFile ("diff --git" ++ unlines (line0 :: hs ++ hunk_abe_lines))
    = Returned [mkFileChange (targetFilePath m) file n d [h]]
    /\ oldStartLine h = 1%Z /\ oldLineCount h = 3%Z
    /\ newStartLine h = 1%Z /\ newLineCount h = 4%Z
    /\ content h
       = (" a" ++ JS.LF ++ "-b" ++ JS.LF ++ "+c" ++ JS.LF ++ "+d"
               ++ JS.LF ++ " e")%string
    /\ taggedBody h
       = [(context, "a"); (removed, "b"); (added, "c"); (added, "d");
          (context, "e")].
Proof.
  intros Hp Hlf Hmk Hhs.
  assert (Hmark : JS.includes (unlines (line0 :: hs ++ hunk_abe_lines))
                              "diff --git" = false).
  { apply includes_unlines; [reflexivity | discriminate |].
    constructor; [exact Hmk |]. apply Forall_app. split.
    - eapply Forall_impl; [| exact Hhs]. now intros l (_ & H & _).
    - repeat constructor. }
  assert (Hlines : segmentLines (unlines (line0 :: hs ++ hunk_abe_lines))
                   = line0 :: hs ++ hunk_abe_lines).
  { apply segmentLines_unlines. constructor; [exact Hlf |].
    apply Forall_app. split.
    - eapply Forall_impl; [| exact Hhs]. now intros l [H _].
    - repeat constructor. }
  assert (Hscan : exists n d,
             scanHeader (headerLines (line0 :: hs ++ hunk_abe_lines))
                        false false = (file, n, d)).
  { apply scanHeader_file. unfold headerLines. cbn [tl].
    apply Forall_firstn_keep, Forall_app. split.
    - eapply Forall_impl; [| exact Hhs]. now intros l (_ & _ & _ & Hb & Hd).
    - repeat constructor. }
  assert (Hhunks : findHunks (hs ++ hunk_abe_lines)
                   = [mkHunk 1 3 1 4
                        (" a" ++ JS.LF ++ "-b" ++ JS.LF ++ "+c" ++ JS.LF
                              ++ "+d" ++ JS.LF ++ " e")]).
  { unfold findHunks. rewrite fold_left_app.
    rewrite (hunkStep_before hs).
    - reflexivity.
    - eapply Forall_impl; [| exact Hhs]. now intros l (_ & _ & Hm & _).
    - reflexivity. }
  destruct Hscan as [n [d Hscan]].
  exists n, d. eexists.
  rewrite (parsePatchFile_single _ Hmark). unfold parseSegment.
  rewrite Hlines. unfold parseLines. rewrite Hp, Hscan. cbn [tl].
  rewrite Hhunks. repeat split.
Qed.

(** The fixture with the header block that [git diff] writes. *)
Lemma C3_witness :
  exists n d h,
    parsePatchFile
      ("diff --git" ++
       unlines (" a/f.txt b/f.txt"
                  :: ["index 1111111..2222222 100644"; "--- a/f.txt";
                      "+++ b/f.txt"] ++ hunk_abe_lines))
    = Returned [mkFileChange "f.txt" file n d [h]]
    /\ oldStartLine h = 1%Z /\ oldLineCount h = 3%Z
    /\ newStartLine h = 1%Z /\ newLineCount h = 4%Z
    /\ content h
       = (" a" ++ JS.LF ++ "-b" ++ JS.LF ++ "+c" ++ JS.LF ++ "+d"
               ++ JS.LF ++ " e")%string
    /\ taggedBody h
       = [(context, "a"); (removed, "b"); (added, "c"); (added, "d");
          (context, "e")].
Proof.
  refine (C3_parse_fixture " a/f.txt b/f.txt"
            ["index 1111111..2222222 100644"; "--- a/f.txt"; "+++ b/f.txt"]
            [(2, "f.txt"); (1, "f.txt")]%nat _ _ _ _).
  - vm_compute. reflexivity.
  - reflexivity.
  - reflexivity.
  - repeat constructor.
Defined.

(* ================================================================== *)
(** ** The order of application *)

Section OrderFacts.

Lemma insertHunk_perm (h : Hunk) (l : list Hunk) :
  Permutation (insertHunk h l) (h :: l).
Proof.
  induction l as [| x l IH]; cbn [insertHunk]; [reflexivity |].
  destruct (oldStartLine x <=? oldStartLine h)%Z; [reflexivity |].
  rewrite IH. apply perm_swap.
Qed.

Lemma sortHunks_perm (l : list Hunk) : Permutation (sortHunks l) l.
Proof.
  induction l as [| h l IH]; cbn [sortHunks]; [reflexivity |].
  rewrite insertHunk_perm. now constructor.
Qed.

Lemma insertHunk_descending (h : Hunk) (l : list Hunk) :
  descending l -> descending (insertHunk h l).
Proof.
  unfold descending.
  induction 1 as [| x l Hl IH Hx]; cbn [insertHunk].
  - repeat constructor.
  - destruct (Z.leb_spec (oldStartLine x) (oldStartLine h)) as [Hle | Hgt].
    + constructor; [now constructor |].
      constructor; [exact Hle |].
      eapply Forall_impl; [| exact Hx]. cbn. intros y Hy. lia.
    + constructor; [exact IH |].
      rewrite (insertHunk_perm h l). constructor; [lia | exact Hx].
Qed.

Lemma sortHunks_descending (l : list Hunk) : descending (sortHunks l).
Proof.
  induction l as [| h l IH]; cbn [sortHunks].
  - constructor.
  - now apply insertHunk_descending.
Qed.

(** The sort is stable: hunks with the same start keep their order. *)
Lemma insertHunk_same_start (v : Z) (h : Hunk) (l : list Hunk) :
  filter (fun x => (oldStartLine x =? v)%Z) (insertHunk h l)
  = filter (fun x => (oldStartLine x =? v)%Z) (h :: l).
Proof.
  induction l as [| x l IH]; [reflexivity |].
  cbn [insertHunk].
  destruct (Z.leb_spec (oldStartLine x) (oldStartLine h)) as [Hle | Hgt];
    [reflexivity |].
  cbn [filter] in *. rewrite IH.
  destruct (Z.eqb_spec (oldStartLine h) v) as [Hh | Hh];
    destruct (Z.eqb_spec (oldStartLine x) v) as [Hx | Hx];
    try reflexivity; lia.
Qed.

Lemma sortHunks_stable (v : Z) (l : list Hunk) :
  filter (fun x => (oldStartLine x =? v)%Z) (sortHunks l)
  = filter (fun x => (oldStartLine x =? v)%Z) l.
Proof.
  induction l as [| h l IH]; [reflexivity |].
  cbn [sortHunks]. rewrite insertHunk_same_start.
  cbn [filter]. now rewrite IH.
Qed.

(** In a descending list the hunks before position [k] start at or
    after the hunk at [k]. *)
Lemma descending_before (l : list Hunk) :
  descending l ->
  forall k h, nth_error l k = Some h ->
    Forall (fun x => (oldStartLine h <= oldStartLine x)%Z) (firstn k l).
Proof.
  unfold descending.
  induction 1 as [| x l Hl IH Hx]; intros k h Hk.
  - destruct k; discriminate.
  - destruct k as [| k]; cbn [nth_error firstn] in *; [constructor |].
    constructor.
    + rewrite Forall_forall in Hx. apply Hx. eapply nth_error_In, Hk.
    + now apply IH.
Qed.

(** Hunks that start at or after line [n + 1] leave the first [n] lines
    as they are. *)
Lemma applyLines_keeps_prefix (hs : list Hunk) (n : nat) :
  Forall (fun x => (Z.of_nat n <= oldStartLine x - 1)%Z) hs ->
  forall lines, (n <= length lines)%nat ->
    firstn n (applyLines lines hs) = firstn n lines.
Proof.
  induction 1 as [| x hs Hx _ IH]; intros lines Hn; [reflexivity |].
  unfold applyLines in *. cbn [fold_left].
  assert (E : firstn n (applyHunk lines x) = firstn n lines)
    by now apply splice_keeps_prefix.
  rewrite IH; [exact E |].
  apply (f_equal (@length string)) in E.
  rewrite !length_firstn in E. lia.
Qed.

Lemma applyHunk_in_range (lines : list string) (h : Hunk) :
  (1 <= oldStartLine h)%Z -> (0 <= oldLineCount h)%Z ->
  (rangeEnd h <= length lines)%nat ->
  applyHunk lines h
  = firstn (rangeStart h) lines ++ replacement h ++ skipn (rangeEnd h) lines.
Proof.
  intros Hs Hc Hr. unfold applyHunk, rangeEnd, rangeStart in *.
  now rewrite splice_in_range by lia.
Qed.

Lemma bottomUp_weaken (hs : list Hunk) (b b' : nat) :
  (b <= b')%nat -> bottomUp b hs -> bottomUp b' hs.
Proof.
  destruct hs as [| h rest]; [trivial |].
  cbn [bottomUp]. intros Hb (Hs & Hc & Hr & Hrest).
  repeat split; try assumption. lia.
Qed.

(** Hunks whose ranges lie in the first lines do not see what follows. *)
Lemma applyLines_local (hs : list Hunk) :
  forall top below,
    bottomUp (length top) hs ->
    applyLines (top ++ below) hs = applyLines top hs ++ below.
Proof.
  induction hs as [| h rest IH]; intros top below Hb; [reflexivity |].
  cbn [bottomUp] in Hb. destruct Hb as (Hs & Hc & Hr & Hrest).
  unfold applyLines in *. cbn [fold_left].
  rewrite (applyHunk_in_range (top ++ below)) by
      (try assumption; rewrite length_app; lia).
  rewrite (applyHunk_in_range top) by assumption.
  assert (Hlo : (rangeStart h <= length top)%nat)
    by (unfold rangeEnd in Hr; lia).
  rewrite firstn_app, skipn_app.
  replace (rangeStart h - length top)%nat with 0%nat by lia.
  replace (rangeEnd h - length top)%nat with 0%nat by lia.
  cbn [firstn skipn]. rewrite app_nil_r.
  rewrite <- IH.
  - now rewrite <- !app_assoc.
  - apply (bottomUp_weaken rest (rangeStart h)); [| exact Hrest].
    rewrite length_app, length_firstn. lia.
Qed.

(** Bottom-up application computes what the original numbering
    prescribes. *)
Lemma applyLines_prescribed (hs : list Hunk) :
  forall lines,
    bottomUp (length lines) hs -> applyLines lines hs = prescribed lines hs.
Proof.
  induction hs as [| h rest IH]; intros lines Hb; [reflexivity |].
  cbn [bottomUp] in Hb. destruct Hb as (Hs & Hc & Hr & Hrest).
  assert (Hlo : (rangeStart h <= length lines)%nat)
    by (unfold rangeEnd in Hr; lia).
  change (applyLines lines (h :: rest))
    with (applyLines (applyHunk lines h) rest).
  rewrite applyHunk_in_range by assumption.
  rewrite applyLines_local.
  - cbn [prescribed]. rewrite IH; [reflexivity |].
    rewrite length_firstn. now rewrite Nat.min_l by exact Hlo.
  - rewrite length_firstn. now rewrite Nat.min_l by exact Hlo.
Qed.

End OrderFacts.

(** C1: the applier goes through the hunks in descending order of
    [oldStartLine]: the list it loops on is a permutation of the record's
    hunks, sorted downward.  When a hunk is spliced, the lines before its
    start are the original's, so its start still is the index the diff
    meant; and when the ranges lie in the file and do not overlap, the
    result is what splicing every hunk against the numbering of the
    original prescribes.  With two hunks at lines 2 and 10, in either
    order in the record, the hunk at 10 is applied first and the result
    is the original with the range of each replaced where it stood. *)
Theorem C1_hunks_applied_bottom_up (original : string) (change : FileChange) :
  let lines := JS.split original JS.LF in
  let sortedHunks := sortHunks (hunks change) in
  Permutation sortedHunks (hunks change)
  /\ descending sortedHunks
  /\ applyPatchToContent original change
     = JS.join (fold_left applyHunk sortedHunks lines) JS.LF
  /\ (forall k h,
        nth_error sortedHunks k = Some h ->
        (1 <= oldStartLine h)%Z ->
        (rangeStart h <= length lines)%nat ->
        firstn (rangeStart h) (applyLines lines (firstn k sortedHunks))
        = firstn (rangeStart h) lines)
  /\ (bottomUp (length lines) sortedHunks ->
      applyPatchToContent original change
      = JS.join (prescribed lines sortedHunks) JS.LF)
  /\ (forall h2 h10,
        oldStartLine h2 = 2%Z -> oldStartLine h10 = 10%Z ->
        (0 <= oldLineCount h2 <= 8)%Z -> (0 <= oldLineCount h10)%Z ->
        (9 + Z.to_nat (oldLineCount h10) <= length lines)%nat ->
        hunks change = [h2; h10] \/ hunks change = [h10; h2] ->
        sortedHunks = [h10; h2]
        /\ applyPatchToContent original change
           = JS.join
               (firstn 1 lines
                  ++ replacement h2
                  ++ firstn (8 - Z.to_nat (oldLineCount h2))
                            (skipn (1 + Z.to_nat (oldLineCount h2)) lines)
                  ++ replacement h10
                  ++ skipn (9 + Z.to_nat (oldLineCount h10)) lines)
               JS.LF).
Proof.
  intros lines sortedHunks.
  assert (Hpresc : bottomUp (length lines) sortedHunks ->
                   applyPatchToContent original change
                   = JS.join (prescribed lines sortedHunks) JS.LF).
  { intros Hb. unfold applyPatchToContent. fold lines. fold sortedHunks.
    now rewrite applyLines_prescribed. }
  split; [apply sortHunks_perm |].
  split; [apply sortHunks_descending |].
  split; [reflexivity |].
  split.
  { intros k h Hk Hs Hr.
    apply applyLines_keeps_prefix; [| exact Hr].
    eapply Forall_impl;
      [| exact (descending_before _ (sortHunks_descending _) k h Hk)].
    cbn. intros x Hx. unfold rangeStart. lia. }
  split; [exact Hpresc |].
  intros h2 h10 H2 H10 Hc2 Hc10 Hlen Horder.
  assert (Hsorted : sortedHunks = [h10; h2]).
  { unfold sortedHunks.
    destruct Horder as [-> | ->]; cbn [sortHunks insertHunk];
      rewrite H2, H10; reflexivity. }
  split; [exact Hsorted |].
  assert (R2 : rangeStart h2 = 1%nat) by (unfold rangeStart; rewrite H2; reflexivity).
  assert (R10 : rangeStart h10 = 9%nat)
    by (unfold rangeStart; rewrite H10; reflexivity).
  rewrite Hpresc.
  - rewrite Hsorted. cbn [prescribed]. unfold rangeEnd. rewrite R2, R10.
    rewrite firstn_firstn. cbn [Nat.min].
    rewrite skipn_firstn_comm.
    replace (9 - (1 + Z.to_nat (oldLineCount h2)))%nat
      with (8 - Z.to_nat (oldLineCount h2))%nat by lia.
    now rewrite <- !app_assoc.
  - rewrite Hsorted. cbn [bottomUp]. unfold rangeEnd. rewrite R2, R10.
    repeat split; lia.
Qed.

(** The twenty-line file with its hunks at 2 and 10. *)
Lemma C1_witness :
  sortHunks [hunk_at_2; hunk_at_10] = [hunk_at_10; hunk_at_2]
  /\ applyPatchToContent
       twenty_lines
       (mkFileChange "f.txt" file false false [hunk_at_2; hunk_at_10])
     = twenty_lines_patched.
Proof.
  destruct (C1_hunks_applied_bottom_up
              twenty_lines
              (mkFileChange "f.txt" file false false [hunk_at_2; hunk_at_10]))
    as (_ & _ & _ & _ & _ & H).
  refine (H hunk_at_2 hunk_at_10 _ _ _ _ _ _).
  - reflexivity.
  - reflexivity.
  - cbn. lia.
  - cbn. lia.
  - vm_compute. lia.
  - left. reflexivity.
Defined.

(** The same two hunks taken top-down: the line added at 2 has moved
    line 10, and the second splice hits the wrong line. *)
Lemma ascending_order_would_differ :
  JS.join (fold_left applyHunk [hunk_at_2; hunk_at_10]
                     (JS.split twenty_lines JS.LF)) JS.LF
  <> twenty_lines_patched.
Proof. vm_compute. discriminate. Qed.

(* ================================================================== *)
(** ** More on the parser: kinds and the header window *)

Section KindFacts.

Lemma parseLines_kind_hunks (lines : list string) (fc : FileChange) :
  parseLines lines = Returned (Some fc) ->
  fileType fc <> file -> hunks fc = [].
Proof.
  unfold parseLines. destruct lines as [| line0 rest]; [discriminate |].
  destruct (filePathMatch line0) as [m |]; [| discriminate].
  destruct (scanHeader (headerLines (line0 :: rest)) false false)
    as [[ft n] d].
  destruct ft; intros H; injection H as <-; cbn; congruence.
Qed.

Lemma headerLines_window (lines : list string) :
  headerLines lines = tl (firstn 10 lines).
Proof.
  unfold headerLines. destruct lines as [| l ls]; reflexivity.
Qed.

(** A line with [Binary files], met before any directory line, ends the
    header loop with the kind [binary]. *)
Lemma scanHeader_binary (before : list string) (line : string)
      (after : list string) :
  Forall (fun l => JS.includes l "Binary files" = false
                   /\ isDirectoryLine l = false) before ->
  JS.includes line "Binary files" = true ->
  forall n0 d0, exists n d,
    scanHeader (before ++ line :: after) n0 d0 = (binary, n, d).
Proof.
  induction 1 as [| l rest [Hb Hd] _ IH]; intros Hline n0 d0.
  - cbn [app scanHeader]. rewrite Hline. now eexists; eexists.
  - cbn [app scanHeader]. rewrite Hb, Hd. now apply IH.
Qed.

End KindFacts.

(** X1: whatever the diff text, a record of the parser whose kind is not
    [file] (a directory or a binary file) has no hunks. *)
Theorem X1_only_regular_records_have_hunks
        (patchContent : string) (fcs : list FileChange) (fc : FileChange) :
  parsePatchFile patchContent = Returned fcs ->
  In fc fcs ->
  fileType fc <> file ->
  hunks fc = [].
Proof.
  intros Hp Hin Hk. unfold parsePatchFile in Hp.
  destruct (parseAll_In _ _ _ _ Hp Hin) as [[] | [lines [_ Hfc]]].
  exact (parseLines_kind_hunks _ _ Hfc Hk).
Qed.

(** A binary segment that also holds a hunk. *)
Lemma X1_witness :
  hunks (mkFileChange "logo.png" binary false false []) = [].
Proof.
  apply (X1_only_regular_records_have_hunks
           (unlines [ "diff --git a/logo.png b/logo.png";
                      "Binary files a/logo.png and b/logo.png differ";
                      "@@ -1 +1 @@"; "+x" ])
           [mkFileChange "logo.png" binary false false []]).
  - vm_compute. reflexivity.
  - left. reflexivity.
  - discriminate.
Defined.

(** X2: the path, the kind and the two flags of a segment's record are
    decided by its first ten lines: two line arrays that agree on them
    give records that agree on the four, and one is skipped when the
    other is. *)
Theorem X2_header_window_is_ten_lines (lines lines' : list string) :
  firstn 10 lines = firstn 10 lines' ->
  match parseLines lines, parseLines lines' with
  | Returned (Some fc), Returned (Some fc') =>
      filePath fc = filePath fc' /\ fileType fc = fileType fc'
      /\ isNew fc = isNew fc' /\ isDeleted fc = isDeleted fc'
  | Returned None, Returned None => True
  | Thrown _, Thrown _ => True
  | _, _ => False
  end.
Proof.
  intros H. unfold parseLines.
  rewrite !headerLines_window, <- H.
  destruct lines as [| l0 ls]; destruct lines' as [| l0' ls'];
    try discriminate; [exact I |].
  cbn [firstn] in H. injection H as <- H.
  destruct (filePathMatch l0) as [m |]; [| exact I].
  destruct (scanHeader (tl (firstn 10 (l0 :: ls))) false false) as [[ft n] d].
  destruct ft; cbn; repeat split.
Qed.

(** A [Binary files] line in the eleventh line is not seen. *)
Lemma X2_witness :
  match parseLines (" a/f b/f" :: repeat "x" 9 ++ ["Binary files differ"]),
        parseLines (" a/f b/f" :: repeat "x" 9) with
  | Returned (Some fc), Returned (Some fc') =>
      filePath fc = filePath fc' /\ fileType fc = fileType fc'
      /\ isNew fc = isNew fc' /\ isDeleted fc = isDeleted fc'
  | Returned None, Returned None => True
  | Thrown _, Thrown _ => True
  | _, _ => False
  end.
Proof.
  apply (X2_header_window_is_ten_lines
           (" a/f b/f" :: repeat "x" 9 ++ ["Binary files differ"])
           (" a/f b/f" :: repeat "x" 9)).
  reflexivity.
Defined.

(** X3: a line holding [Binary files] among the nine lines after the path
    line, with no binary or directory line before it, makes the record
    binary and without hunks, whatever follows, hunk headers included. *)
Theorem X3_binary_segment
        (line0 : string) (before : list string) (line : string)
        (after : list string) (m : captures) :
  filePathMatch line0 = Some m ->
  (length before < 9)%nat ->
  Forall (fun l => JS.includes l "Binary files" = false
                   /\ isDirectoryLine l = false) before ->
  JS.includes line "Binary files" = true ->
  exists n d,
    parseLines (line0 :: before ++ line :: after)
    = Returned (Some (mkFileChange (targetFilePath m) binary n d [])).
Proof.
  intros Hp Hlen Hbefore Hline. unfold parseLines. rewrite Hp.
  unfold headerLines. cbn [tl].
  rewrite firstn_app.
  rewrite (firstn_all2 before) by lia.
  destruct (9 - length before)%nat as [| k] eqn:E; [lia |].
  cbn [firstn].
  destruct (scanHeader_binary before line (firstn k after) Hbefore Hline
                              false false) as (n & d & ->).
  now exists n, d.
Qed.

Lemma X3_witness :
  exists n d,
    parseLines [ " a/logo.png b/logo.png"; "index 1111111..2222222";
                 "Binary files a/logo.png and b/logo.png differ";
                 "@@ -1 +1 @@"; "+x" ]
    = Returned (Some (mkFileChange "logo.png" binary n d [])).
Proof.
  refine (X3_binary_segment " a/logo.png b/logo.png"
            ["index 1111111..2222222"]
            "Binary files a/logo.png and b/logo.png differ"
            ["@@ -1 +1 @@"; "+x"]
            [(2, "logo.png"); (1, "logo.png")]%nat _ _ _ _).
  - vm_compute. reflexivity.
  - cbn. lia.
  - repeat constructor.
  - vm_compute. reflexivity.
Defined.

(* ================================================================== *)
(** ** More on the patterns *)

Section PatternFacts.

(** A literal text at the head of the subject is passed. *)
Lemma matchK_text (R : Type) (t s : string) (caps : captures)
      (k : string -> captures -> option R) :
  matchK R (text t) (t ++ s) caps k = k s caps.
Proof.
  induction t as [| c t IH]; [reflexivity |].
  cbn [text String.append matchK inClass]. now rewrite Ascii.eqb_refl.
Qed.

(** A literal text that is not at the head of the subject fails. *)
Lemma matchK_text_fail (R : Type) (t : string) :
  forall (s : string) (caps : captures) (k : string -> captures -> option R),
    String.prefix t s = false -> matchK R (text t) s caps k = None.
Proof.
  induction t as [| c t IH]; intros s caps k H.
  - now rewrite prefix_empty in H.
  - cbn [text matchK]. destruct s as [| x s]; [reflexivity |].
    cbn [inClass String.prefix] in *.
    destruct (Ascii.eqb_spec c x) as [-> | Hne]; [| reflexivity].
    destruct (ascii_dec x x); [now apply IH | congruence].
Qed.

(** A greedy run that meets its end takes the whole run, when what
    follows then succeeds. *)
Lemma starK_stop (R : Type) (cl : cclass) (k : string -> option R) (res : R)
      (run s : string) :
  allInClass cl run = true -> stopsRun cl s -> k s = Some res ->
  starK R cl (run ++ s) k = Some res.
Proof.
  intros Hrun Hs Hk. induction run as [| c run IH].
  - cbn [String.append]. destruct s as [| x s]; [exact Hk |].
    cbn [starK]. cbn in Hs. now rewrite Hs.
  - cbn [allInClass] in Hrun. apply andb_true_iff in Hrun as [Hc Hrun].
    cbn [String.append starK]. now rewrite Hc, (IH Hrun).
Qed.

(** A group of digits at the head of the subject captures the whole
    numeral. *)
Lemma matchK_numeral (R : Type) (i : nat) (t s : string) (caps : captures)
      (k : string -> captures -> option R) (res : R) :
  isNumeral t = true -> stopsRun Digit s ->
  k s ((i, t) :: caps) = Some res ->
  matchK R (Group i (Plus Digit)) (t ++ s) caps k = Some res.
Proof.
  intros Ht Hs Hk. destruct t as [| c t]; [discriminate |].
  cbn [isNumeral allInClass] in Ht. apply andb_true_iff in Ht as [Hc Ht].
  cbn [matchK String.append]. rewrite Hc.
  apply starK_stop; [exact Ht | exact Hs |].
  change (String c (t ++ s)) with (String c t ++ s)%string.
  now rewrite consumed_app.
Qed.

(** A greedy run gives back until what follows succeeds: when it fails
    on every later start, the run ends at the last start that succeeds. *)
Lemma starK_gives_back (R : Type) (cl : cclass) (k : string -> option R)
      (s : string) :
  allInClass cl s = true ->
  (forall x s', s = (x ++ s')%string -> x <> EmptyString -> k s' = None) ->
  starK R cl s k = k s.
Proof.
  induction s as [| c s IH]; intros Hall Hlater; [reflexivity |].
  cbn [allInClass] in Hall. apply andb_true_iff in Hall as [Hc Hall].
  cbn [starK]. rewrite Hc, IH.
  - rewrite (Hlater (String c EmptyString) s); [reflexivity | reflexivity |].
    discriminate.
  - exact Hall.
  - intros x s' -> Hx. apply (Hlater (String c x) s'); [reflexivity |].
    discriminate.
Qed.

Lemma starK_run_then (R : Type) (cl : cclass) (k : string -> option R)
      (res : R) (run s : string) :
  allInClass cl run = true -> starK R cl s k = Some res ->
  starK R cl (run ++ s) k = Some res.
Proof.
  intros Hrun Hs. induction run as [| c run IH]; [exact Hs |].
  cbn [allInClass] in Hrun. apply andb_true_iff in Hrun as [Hc Hrun].
  cbn [String.append starK]. now rewrite Hc, (IH Hrun).
Qed.

Lemma allInClass_app (cl : cclass) (a b : string) :
  allInClass cl (a ++ b) = allInClass cl a && allInClass cl b.
Proof.
  induction a as [| c a IH]; [reflexivity |].
  cbn [String.append allInClass]. now rewrite IH, andb_assoc.
Qed.

(** A text that starts a suffix of [q] occurs in [q]. *)
Lemma includes_suffix (p x s' : string) :
  String.prefix p s' = true -> JS.includes (x ++ s') p = true.
Proof.
  intros H. induction x as [| c x IH]; cbn [String.append].
  - destruct s'; cbn [JS.includes]; now rewrite H.
  - cbn [JS.includes]. rewrite IH. apply orb_true_r.
Qed.

End PatternFacts.

(** One step over a literal text: the subject is put in the form the
    lemma reads. *)
Ltac pass_text s :=
  lazymatch goal with
  | |- matchK _ (text ?t) ?subj _ _ = _ =>
      change subj with (t ++ s)%string; rewrite matchK_text
  end.

Section HeaderFacts.

Lemma matchRegex_here (r : regex) (s : string) (caps : captures) :
  matchHere r s = Some caps -> matchRegex r s = Some caps.
Proof. intros H. destruct s; cbn [matchRegex]; now rewrite H. Qed.

Lemma matchK_seq (R : Type) (r1 r2 : regex) (s : string) (caps : captures)
      (k : string -> captures -> option R) :
  matchK R (Seq r1 r2) s caps k
  = matchK R r1 s caps (fun s' caps' => matchK R r2 s' caps' k).
Proof. reflexivity. Qed.

Lemma matchK_chr (R : Type) (c : ascii) (s : string) (caps : captures)
      (k : string -> captures -> option R) :
  matchK R (Chr (Lit c)) (String c s) caps k = k s caps.
Proof. cbn [matchK inClass]. now rewrite Ascii.eqb_refl. Qed.

Lemma matchK_chr_fail (R : Type) (c x : ascii) (s : string) (caps : captures)
      (k : string -> captures -> option R) :
  Ascii.eqb c x = false ->
  matchK R (Chr (Lit c)) (String x s) caps k = None.
Proof. intros H. cbn [matchK inClass]. now rewrite H. Qed.

Lemma matchK_opt (R : Type) (r : regex) (s : string) (caps : captures)
      (k : string -> captures -> option R) :
  matchK R (Opt r) s caps k
  = match matchK R r s caps k with
    | Some x => Some x
    | None => k s caps
    end.
Proof. reflexivity. Qed.

(** The optional count before a space. *)
Lemma matchK_count (R : Type) (i : nat) (count : option string)
      (s : string) (caps : captures)
      (k : string -> captures -> option R) (res : R) :
  countIsNumeral count ->
  k (String " " s) (withCount i count caps) = Some res ->
  matchK R (Opt (Seq (Chr (Lit ",")) (Group i (Plus Digit))))
         (countText count ++ String " " s) caps k = Some res.
Proof.
  intros Hc Hk. rewrite matchK_opt, matchK_seq.
  destruct count as [t |]; cbn [countText withCount] in *.
  - change (("," ++ t) ++ String " " s)%string
      with (String "," (t ++ String " " s)).
    rewrite matchK_chr.
    now rewrite (matchK_numeral R i t (String " " s) caps k res Hc eq_refl Hk).
  - change (EmptyString ++ String " " s)%string with (String " " s).
    rewrite matchK_chr_fail by reflexivity. exact Hk.
Qed.

Lemma hunkHeader_match (a : string) (b : option string) (c : string)
      (d : option string) (rest : string) :
  isNumeral a = true -> countIsNumeral b ->
  isNumeral c = true -> countIsNumeral d ->
  matchRegex hunkHeaderPattern (headerText a b c d rest)
  = Some (withCount 4 d ((3, c) :: withCount 2 b [(1, a)])).
Proof.
  intros Ha Hb Hc Hd. apply matchRegex_here.
  unfold matchHere, hunkHeaderPattern, headerText.
  assert (Stop : forall (count : option string) (s : string),
             stopsRun Digit (countText count ++ String " " s)).
  { intros [t |] s; reflexivity. }
  rewrite matchK_seq.
  pass_text (a ++ countText b ++ " +" ++ c ++ countText d ++ " @@" ++ rest)%string.
  rewrite matchK_seq.
  apply matchK_numeral; [exact Ha | apply (Stop b) |].
  rewrite matchK_seq.
  apply matchK_count; [exact Hb |].
  cbv beta. rewrite matchK_seq.
  pass_text (c ++ countText d ++ " @@" ++ rest)%string.
  rewrite matchK_seq.
  apply matchK_numeral; [exact Hc | apply (Stop d) |].
  rewrite matchK_seq.
  apply matchK_count; [exact Hd |].
  cbv beta.
  pass_text rest.
  reflexivity.
Qed.

Lemma capture_withCount_other (i j : nat) (count : option string)
      (caps : captures) :
  i <> j -> capture i (withCount j count caps) = capture i caps.
Proof.
  intros H. destruct count; cbn [withCount capture]; [| reflexivity].
  now rewrite (proj2 (Nat.eqb_neq i j) H).
Qed.

Lemma countOr1_withCount (i : nat) (count : option string) (caps : captures) :
  capture i caps = None ->
  countOr1 i (withCount i count caps) = countValue count.
Proof.
  intros H. unfold countOr1.
  destruct count; cbn [withCount capture countValue].
  - now rewrite Nat.eqb_refl.
  - now rewrite H.
Qed.

End HeaderFacts.

(** The rounding of [parseInt]: a numeral below 2^53 has its exact value,
    and 2^53 + 1, which no double holds, comes out as 2^53. *)
Lemma parseInt_exact (t : string) :
  (JS.parseIntFrom 0 t < 2 ^ 53)%Z -> JS.parseInt t = JS.parseIntFrom 0 t.
Proof.
  intros H. unfold JS.parseInt, JS.toDouble.
  apply Z.ltb_lt in H. now rewrite H.
Qed.

Lemma parseInt_rounds :
  JS.parseInt "9007199254740993" = 9007199254740992%Z
  /\ JS.parseInt "9007199254740995" = 9007199254740996%Z.
Proof. split; vm_compute; reflexivity. Qed.

Lemma isShortNumeral_isNumeral (t : string) :
  isShortNumeral t = true -> isNumeral t = true.
Proof. unfold isShortNumeral. intros H. now apply andb_true_iff in H. Qed.

Lemma countIsShortNumeral_countIsNumeral (count : option string) :
  countIsShortNumeral count -> countIsNumeral count.
Proof.
  destruct count; cbn; [apply isShortNumeral_isNumeral | trivial].
Qed.

(** X4: a hunk header written with the numerals [a] and [c] for the two
    starts, each followed or not by a comma and a count, every numeral of
    at most twenty digits, opens the hunk whose starts are [parseInt] of
    [a] and of [c] and whose counts are [parseInt] of the counts given, 1
    for a count that is left out; [parseInt] is the double nearest to the
    numeral's value, the value itself up to 2^53.  The lines after the
    header, up to the next marker line, are the body.  The text after the
    closing marker of the header is ignored. *)
Theorem X4_header_numbers
        (a : string) (b : option string) (c : string) (d : option string)
        (rest : string) (body : list string) :
  isShortNumeral a = true -> countIsShortNumeral b ->
  isShortNumeral c = true -> countIsShortNumeral d ->
  Forall (fun l => JS.startsWith l "@@" = false) body ->
  findHunks (headerText a b c d rest :: body)
  = [mkHunk (JS.parseInt a) (countValue b) (JS.parseInt c) (countValue d)
            (JS.join body JS.LF)].
Proof.
  intros Ha Hb Hc Hd Hbody.
  apply isShortNumeral_isNumeral in Ha, Hc.
  apply countIsShortNumeral_countIsNumeral in Hb, Hd.
  rewrite (findHunks_one (headerText a b c d rest) body _ eq_refl
                         (hunkHeader_match a b c d rest Ha Hb Hc Hd) Hbody).
  assert (E4 : countOr1 4 (withCount 4 d ((3, c) :: withCount 2 b [(1, a)]))
               = countValue d).
  { apply countOr1_withCount. cbn [capture Nat.eqb].
    now rewrite capture_withCount_other. }
  assert (E2 : countOr1 2 (withCount 4 d ((3, c) :: withCount 2 b [(1, a)]))
               = countValue b).
  { unfold countOr1. rewrite capture_withCount_other by discriminate.
    cbn [capture Nat.eqb]. fold (countOr1 2 (withCount 2 b [(1, a)])).
    now apply countOr1_withCount. }
  assert (E3 : startOf 3 (withCount 4 d ((3, c) :: withCount 2 b [(1, a)]))
               = JS.parseInt c).
  { unfold startOf. rewrite capture_withCount_other by discriminate.
    reflexivity. }
  assert (E1 : startOf 1 (withCount 4 d ((3, c) :: withCount 2 b [(1, a)]))
               = JS.parseInt a).
  { unfold startOf. rewrite capture_withCount_other by discriminate.
    cbn [capture Nat.eqb]. rewrite capture_withCount_other by discriminate.
    reflexivity. }
  now rewrite E1, E2, E3, E4.
Qed.

(** The header [@@ -9007199254740993 +7,2 @@] with a function name after
    it: the old start is 2^53 + 1 and comes out as 2^53. *)
Lemma X4_witness :
  findHunks ["@@ -9007199254740993 +7,2 @@ int main()"; "-x"; "+y"; "+z"]
  = [mkHunk 9007199254740992 1 7 2
            ("-x" ++ JS.LF ++ "+y" ++ JS.LF ++ "+z")].
Proof.
  apply (X4_header_numbers "9007199254740993" None "7" (Some "2")
                           " int main()" ["-x"; "+y"; "+z"]).
  - reflexivity.
  - exact I.
  - reflexivity.
  - reflexivity.
  - repeat constructor.
Defined.

Section PathFacts.

Lemma matchK_group_star (R : Type) (i : nat) (cl : cclass) (s : string)
      (caps : captures) (k : string -> captures -> option R) :
  matchK R (Group i (Star cl)) s caps k
  = starK R cl s (fun s' => k s' ((i, consumed s s') :: caps)).
Proof. reflexivity. Qed.

Lemma consumed_all (q : string) : consumed q EmptyString = q.
Proof.
  rewrite <- (string_app_empty_r q) at 1. apply consumed_app.
Qed.

Lemma starK_all (R : Type) (cl : cclass) (k : string -> option R) (res : R)
      (q : string) :
  allInClass cl q = true -> k EmptyString = Some res ->
  starK R cl q k = Some res.
Proof.
  intros Hq Hk. rewrite <- (string_app_empty_r q).
  now apply starK_stop.
Qed.

(** After the last [ b/] of the line there is no later start for it. *)
Lemma no_later_target (q x s' : string) :
  JS.includes q " b/" = false ->
  (" b/" ++ q)%string = (x ++ s')%string -> x <> EmptyString ->
  String.prefix " b/" s' = false.
Proof.
  intros Hq E Hx.
  destruct x as [| c1 x]; [congruence |].
  cbn [String.append] in E. injection E as <- E.
  destruct x as [| c2 x].
  { cbn [String.append] in E. subst s'. reflexivity. }
  cbn [String.append] in E. injection E as <- E.
  destruct x as [| c3 x].
  { cbn [String.append] in E. subst s'. reflexivity. }
  cbn [String.append] in E. injection E as <- E.
  destruct (String.prefix " b/" s') eqn:P; [| reflexivity].
  rewrite E, (includes_suffix _ x s' P) in Hq. discriminate.
Qed.

Lemma pathPattern_match (p q : string) :
  allInClass Dot p = true -> allInClass Dot q = true ->
  JS.includes q " b/" = false ->
  matchRegex pathPattern (" a/" ++ p ++ " b/" ++ q)
  = Some [(2, q); (1, p)]%nat.
Proof.
  intros Hp Hq Hlast.
  change (" a/" ++ p ++ " b/" ++ q)%string
    with (String " " ("a/" ++ p ++ " b/" ++ q)).
  cbn [matchRegex].
  assert (Hfirst : matchHere pathPattern
                     (String " " ("a/" ++ p ++ " b/" ++ q)) = None).
  { unfold matchHere, pathPattern. rewrite matchK_seq.
    now apply matchK_text_fail. }
  rewrite Hfirst. apply matchRegex_here.
  unfold matchHere, pathPattern. rewrite matchK_seq.
  pass_text (p ++ " b/" ++ q)%string.
  rewrite matchK_seq, matchK_group_star.
  apply starK_run_then; [exact Hp |].
  rewrite starK_gives_back.
  - rewrite consumed_app, matchK_seq.
    pass_text q.
    rewrite matchK_group_star.
    apply starK_all; [exact Hq |].
    now rewrite consumed_all.
  - rewrite allInClass_app. now rewrite Hq.
  - intros x s' E Hx. rewrite matchK_seq.
    apply matchK_text_fail.
    exact (no_later_target q x s' Hlast E Hx).
Qed.

End PathFacts.

(** X5: on the path line [ a/P b/Q], where [P] and [Q] hold no line
    terminator and [Q] holds no further [ b/], the first pattern matches
    with [P] and [Q] as its two groups, and the record of the segment
    has the path [Q]: the text after the last [ b/] of the line. *)
Theorem X5_target_path (p q : string) (rest : list string) :
  allInClass Dot p = true -> allInClass Dot q = true ->
  JS.includes q " b/" = false ->
  filePathMatch (" a/" ++ p ++ " b/" ++ q) = Some [(2, q); (1, p)]%nat
  /\ exists fc,
      parseLines ((" a/" ++ p ++ " b/" ++ q)%string :: rest)
      = Returned (Some fc)
      /\ filePath fc = q.
Proof.
  intros Hp Hq Hlast.
  assert (E : filePathMatch (" a/" ++ p ++ " b/" ++ q)
              = Some [(2, q); (1, p)]%nat).
  { unfold filePathMatch. now rewrite pathPattern_match. }
  split; [exact E |].
  unfold parseLines. rewrite E.
  destruct (scanHeader _ false false) as [[ft n] d].
  destruct ft; eexists; split; reflexivity.
Qed.

(** A rename whose old path holds the text [ b/]. *)
Lemma X5_witness :
  filePathMatch " a/x b/old.txt b/new name.txt"
  = Some [(2, "new name.txt"); (1, "x b/old.txt")]%nat.
Proof.
  apply (X5_target_path "x b/old.txt" "new name.txt" []); reflexivity.
Defined.

(* ================================================================== *)
(** ** More on the parser: the file segments *)

Section MarkerFacts.

(** A text at the head of [a ++ r] lies in [a] or runs over its end. *)
Lemma prefix_app_cases (a r : string) :
  forall p, String.prefix p (a ++ r) = true ->
    String.prefix p a = true
    \/ exists p2, p = (a ++ p2)%string /\ p2 <> EmptyString
                  /\ String.prefix p2 r = true.
Proof.
  induction a as [| c a IH]; intros p H.
  - destruct p as [| x p]; [left; reflexivity |].
    right. exists (String x p). repeat split; [discriminate | exact H].
  - destruct p as [| x p]; [left; reflexivity |].
    cbn [String.append String.prefix] in *.
    destruct (ascii_dec x c) as [-> | _]; [| discriminate].
    destruct (IH p H) as [Hin | (p2 & -> & Hne & Hp2)]; [now left |].
    right. now exists p2.
Qed.

(** No proper end of the marker is a start of it: the marker cannot
    begin in the text before an occurrence and run into it. *)
Lemma fileMarker_no_overlap (a p2 b : string) :
  fileMarker = (a ++ p2)%string -> a <> EmptyString ->
  String.prefix p2 (fileMarker ++ b) = true -> p2 = EmptyString.
Proof.
  unfold fileMarker. intros E Ha H.
  destruct a as [| c a]; [congruence |].
  cbn [String.append] in E. injection E as <- E.
  repeat (destruct a as [| c a];
          [ cbn [String.append] in E; subst p2; cbn in H; discriminate
          | cbn [String.append] in E;
            first [ injection E as <- E | discriminate E ] ]).
  destruct a; cbn [String.append] in E; [now symmetry | discriminate].
Qed.

Lemma fileMarker_not_across (a b : string) :
  JS.includes a fileMarker = false -> a <> EmptyString ->
  String.prefix fileMarker (a ++ fileMarker ++ b) = false.
Proof.
  intros Ha Hne.
  destruct (String.prefix fileMarker (a ++ fileMarker ++ b)) eqn:E;
    [| reflexivity].
  destruct (prefix_app_cases _ _ _ E) as [Hin | (p2 & Hp & Hp2 & Hpre)].
  - destruct a; cbn [JS.includes] in Ha; rewrite Hin in Ha; discriminate.
  - now rewrite (fileMarker_no_overlap a p2 b Hp Hne Hpre) in Hp2.
Qed.

(** The text before an occurrence of the marker, when it holds none, is
    the first piece. *)
Lemma split_fileMarker (a b : string) :
  JS.includes a fileMarker = false ->
  JS.split (a ++ fileMarker ++ b) fileMarker = a :: JS.split b fileMarker.
Proof.
  induction a as [| c a IH]; intros Ha.
  - apply split_sep_head.
  - assert (Ha' : JS.includes a fileMarker = false).
    { cbn [JS.includes] in Ha. now apply orb_false_iff in Ha as [_ Ha]. }
    pose proof (fileMarker_not_across (String c a) b Ha) as Hno.
    unfold JS.split in *. cbn [String.append JS.splitFrom] in *.
    rewrite Hno by discriminate. now rewrite (IH Ha').
Qed.

Lemma segments_of_diff (segs : list string) :
  Forall (fun seg => JS.includes seg fileMarker = false) segs ->
  forall pre, JS.includes pre fileMarker = false ->
    JS.split (pre ++ diffOfSegments segs) fileMarker = pre :: segs.
Proof.
  induction 1 as [| seg rest Hseg _ IH]; intros pre Hpre.
  - cbn [diffOfSegments]. rewrite string_app_empty_r.
    now apply split_one_piece.
  - cbn [diffOfSegments]. rewrite (split_fileMarker _ _ Hpre).
    now rewrite (IH seg Hseg).
Qed.

(** The outer loop on two runs of segments. *)
Lemma parseAll_app (l1 l2 : list (list string)) :
  forall acc,
    parseAll (l1 ++ l2) acc
    = match parseAll l1 acc with
      | Returned fcs => parseAll l2 fcs
      | Thrown e => Thrown e
      end.
Proof.
  induction l1 as [| lines l1 IH]; intros acc; [reflexivity |].
  cbn [app parseAll].
  destruct (parseLines lines) as [[fc |] | e]; [apply IH | apply IH |].
  reflexivity.
Qed.

(** The records already found stay in front. *)
Lemma parseAll_acc (l : list (list string)) :
  forall acc,
    parseAll l acc
    = match parseAll l [] with
      | Returned fcs => Returned (acc ++ fcs)
      | Thrown e => Thrown e
      end.
Proof.
  induction l as [| lines l IH]; intros acc.
  - cbn. now rewrite app_nil_r.
  - cbn [parseAll].
    destruct (parseLines lines) as [[fc |] | e]; [| apply IH | reflexivity].
    rewrite (IH (acc ++ [fc])), (IH ([] ++ [fc])).
    destruct (parseAll l []); [| reflexivity].
    now rewrite <- app_assoc.
Qed.

Lemma diffOfSegments_app (s1 s2 : list string) :
  diffOfSegments (s1 ++ s2)
  = (diffOfSegments s1 ++ diffOfSegments s2)%string.
Proof.
  induction s1 as [| seg s1 IH]; [reflexivity |].
  cbn [app diffOfSegments]. rewrite IH.
  now rewrite !string_app_assoc.
Qed.

End MarkerFacts.

Section SegmentOrderFacts.

Lemma segments_diffOfSegments (pre : string) (segs : list string) :
  JS.includes pre fileMarker = false ->
  Forall (fun seg => JS.includes seg fileMarker = false) segs ->
  segments (pre ++ diffOfSegments segs) = segs.
Proof.
  intros Hp Hsegs.
  change (tl (JS.split (pre ++ diffOfSegments segs) fileMarker) = segs).
  now rewrite (segments_of_diff segs Hsegs pre Hp).
Qed.

Lemma parsePatchFile_diffOfSegments (segs : list string) :
  Forall (fun seg => JS.includes seg fileMarker = false) segs ->
  parsePatchFile (diffOfSegments segs) = parseAll (map segmentLines segs) [].
Proof.
  intros Hsegs. unfold parsePatchFile.
  change (diffOfSegments segs) with (EmptyString ++ diffOfSegments segs)%string.
  now rewrite (segments_diffOfSegments EmptyString segs eq_refl Hsegs).
Qed.

End SegmentOrderFacts.

(** X6: in a diff text made of a preamble and of file segments, each
    after a marker, none of them holding the marker, the preamble is
    discarded and the records are those of the loop body run on the
    segments in their order. *)
Theorem X6_segments_in_order (pre : string) (segs : list string) :
  JS.includes pre fileMarker = false ->
  Forall (fun seg => JS.includes seg fileMarker = false) segs ->
  segments (pre ++ diffOfSegments segs) = segs
  /\ parsePatchFile (pre ++ diffOfSegments segs)
     = parseAll (map segmentLines segs) []
  /\ parsePatchFile (pre ++ diffOfSegments segs)
     = parsePatchFile (diffOfSegments segs).
Proof.
  intros Hpre Hsegs.
  pose proof (segments_diffOfSegments pre segs Hpre Hsegs) as E.
  split; [exact E |].
  rewrite (parsePatchFile_diffOfSegments segs Hsegs).
  unfold parsePatchFile. rewrite E. now split.
Qed.

(** A mail header before two file segments. *)
Lemma X6_witness :
  segments
    (("From: someone" ++ JS.LF) ++
     diffOfSegments [ (" a/x b/x" ++ JS.LF)%string;
                      (" a/y b/y" ++ JS.LF)%string ])
  = [ (" a/x b/x" ++ JS.LF)%string; (" a/y b/y" ++ JS.LF)%string ].
Proof.
  refine (proj1 (X6_segments_in_order
                   ("From: someone" ++ JS.LF)
                   [ (" a/x b/x" ++ JS.LF)%string;
                     (" a/y b/y" ++ JS.LF)%string ] _ _)).
  - reflexivity.
  - repeat constructor.
Defined.

(** X7: parsing two such diffs one after the other gives the records of
    the first followed by the records of the second; when either raises,
    so does the whole. *)
Theorem X7_concatenated_diffs (segs1 segs2 : list string) :
  Forall (fun seg => JS.includes seg fileMarker = false) segs1 ->
  Forall (fun seg => JS.includes seg fileMarker = false) segs2 ->
  parsePatchFile (diffOfSegments segs1 ++ diffOfSegments segs2)
  = match parsePatchFile (diffOfSegments segs1),
          parsePatchFile (diffOfSegments segs2) with
    | Returned fcs1, Returned fcs2 => Returned (fcs1 ++ fcs2)
    | Thrown e, _ => Thrown e
    | Returned _, Thrown e => Thrown e
    end.
Proof.
  intros H1 H2.
  pose proof parsePatchFile_diffOfSegments as P.
  rewrite <- diffOfSegments_app.
  rewrite (P (segs1 ++ segs2)) by (apply Forall_app; now split).
  rewrite (P segs1 H1), (P segs2 H2), map_app, parseAll_app.
  destruct (parseAll (map segmentLines segs1) []) as [fcs1 | e];
    [| reflexivity].
  rewrite parseAll_acc.
  destruct (parseAll (map segmentLines segs2) []); reflexivity.
Qed.

(** Two diffs of one file each; the second has a path line that matches
    neither pattern and leaves no record. *)
Lemma X7_witness :
  parsePatchFile
    (diffOfSegments [(" a/x b/x" ++ JS.LF)%string]
       ++ diffOfSegments [(" nothing" ++ JS.LF)%string])
  = Returned [mkFileChange "x" file false false []].
Proof.
  apply (X7_concatenated_diffs [(" a/x b/x" ++ JS.LF)%string]
                               [(" nothing" ++ JS.LF)%string]);
    repeat constructor.
Defined.

(* ================================================================== *)
(** ** More on the hunk loop: several hunks *)

Section SeveralHunks.

(** The hunks pushed so far take no part in a turn of the loop. *)
Lemma hunkStep_pushed (b : bool) (cur : Hunk) (p q : list Hunk)
      (line : string) :
  hunkStep (mkScan b cur (p ++ q)) line
  = mkScan (inHunk (hunkStep (mkScan b cur q) line))
           (currentHunk (hunkStep (mkScan b cur q) line))
           (p ++ pushed (hunkStep (mkScan b cur q) line)).
Proof.
  unfold hunkStep. cbn [inHunk currentHunk pushed].
  destruct (JS.startsWith line "@@").
  - destruct b; unfold closeHunk; cbn [inHunk currentHunk pushed];
      destruct (matchRegex hunkHeaderPattern line);
      cbn [inHunk currentHunk pushed]; now rewrite ?app_assoc.
  - destruct b; reflexivity.
Qed.

Lemma hunksFrom_pushed (ls : list string) :
  forall b cur p q,
    hunksFrom (mkScan b cur (p ++ q)) ls = p ++ hunksFrom (mkScan b cur q) ls.
Proof.
  induction ls as [| line ls IH]; intros b cur p q.
  - unfold hunksFrom, closeHunk. cbn [fold_left inHunk pushed currentHunk].
    destruct b; [now rewrite app_assoc | reflexivity].
  - unfold hunksFrom in *. cbn [fold_left].
    rewrite hunkStep_pushed.
    destruct (hunkStep (mkScan b cur q) line) as [b' cur' q'].
    cbn [inHunk currentHunk pushed]. apply IH.
Qed.

End SeveralHunks.

(** X8: a header that matches, its body, and then the next header that
    matches: the first hunk found has the numbers of the first header and
    the lines between the two headers as its body, and the hunks after it
    are those found from the second header on. *)
Theorem X8_hunks_in_order
        (header : string) (body : list string) (header2 : string)
        (rest : list string) (mh mh2 : captures) :
  JS.startsWith header "@@" = true ->
  matchRegex hunkHeaderPattern header = Some mh ->
  Forall (fun l => JS.startsWith l "@@" = false) body ->
  JS.startsWith header2 "@@" = true ->
  matchRegex hunkHeaderPattern header2 = Some mh2 ->
  findHunks (header :: body ++ header2 :: rest)
  = mkHunk (startOf 1 mh) (countOr1 2 mh) (startOf 3 mh) (countOr1 4 mh)
           (JS.join body JS.LF)
      :: findHunks (header2 :: rest).
Proof.
  intros Hm Hh Hb Hm2 Hh2.
  change (findHunks (header :: body ++ header2 :: rest))
    with (hunksFrom (hunkStep initialScan header) (body ++ header2 :: rest)).
  change (findHunks (header2 :: rest))
    with (hunksFrom (hunkStep initialScan header2) rest).
  assert (E : hunkStep initialScan header = mkScan true (hunkOfHeader mh) []).
  { unfold hunkStep. now rewrite Hm, Hh. }
  assert (E2 : hunkStep initialScan header2
               = mkScan true (hunkOfHeader mh2) []).
  { unfold hunkStep. now rewrite Hm2, Hh2. }
  rewrite E, E2. unfold hunksFrom at 1.
  rewrite fold_left_app, (hunkStep_body _ Hb). cbn [fold_left].
  assert (S2 : hunkStep (mkScan true (appendBody (hunkOfHeader mh)
                                                 (unlines body)) [])
                        header2
               = mkScan true (hunkOfHeader mh2)
                   ([mkHunk (startOf 1 mh) (countOr1 2 mh) (startOf 3 mh)
                            (countOr1 4 mh) (JS.join body JS.LF)] ++ [])).
  { unfold hunkStep. rewrite Hm2, Hh2. unfold closeHunk, appendBody, hunkOfHeader.
    cbn [inHunk currentHunk pushed oldStartLine oldLineCount newStartLine
         newLineCount content app String.append].
    now rewrite dropFinalLF_unlines. }
  rewrite S2.
  exact (hunksFrom_pushed rest true (hunkOfHeader mh2) _ []).
Qed.

(** Two hunks, the first with two body lines. *)
Lemma X8_witness :
  findHunks ["@@ -1 +1 @@"; "-a"; "+b"; "@@ -9,0 +9 @@"; "+z"]
  = mkHunk 1 1 1 1 ("-a" ++ JS.LF ++ "+b")
      :: findHunks ["@@ -9,0 +9 @@"; "+z"].
Proof.
  refine (X8_hunks_in_order "@@ -1 +1 @@" ["-a"; "+b"] "@@ -9,0 +9 @@" ["+z"]
            [(3, "1"); (1, "1")]%nat
            [(3, "9"); (2, "0"); (1, "9")]%nat _ _ _ _ _).
  - reflexivity.
  - vm_compute. reflexivity.
  - repeat constructor.
  - reflexivity.
  - vm_compute. reflexivity.
Defined.

(* ================================================================== *)
(** ** More on the applier *)

Section ApplierFacts.

Lemma split_join_LF (ls : list string) :
  ls <> [] ->
  Forall (fun l => JS.includes l JS.LF = false) ls ->
  JS.split (JS.join ls JS.LF) JS.LF = ls.
Proof.
  intros Hne H. induction H as [| l rest Hl Hrest IH]; [congruence |].
  unfold JS.join in *. cbn [String.concat].
  destruct rest as [| l' rest'].
  - now apply split_one_piece.
  - rewrite split_LF_app, (split_one_piece _ _ Hl), IH by discriminate.
    reflexivity.
Qed.

Lemma join_snoc_empty (ls : list string) :
  JS.join (ls ++ [EmptyString]) JS.LF = unlines ls.
Proof.
  induction ls as [| l rest IH]; [reflexivity |].
  unfold JS.join in *. cbn [app String.concat unlines].
  destruct (rest ++ [EmptyString]) eqn:E.
  - destruct rest; discriminate.
  - now rewrite IH.
Qed.

Lemma substring_zero (s : string) : JS.substring s 0 = s.
Proof. destruct s; reflexivity. Qed.

Lemma linesToInsert_added (ls : list string) :
  linesToInsert (map (String "+") ls) = ls.
Proof.
  induction ls as [| l rest IH]; [reflexivity |].
  assert (E : JS.startsWith (String "+" l) "+" = true).
  { unfold JS.startsWith. cbn [String.prefix].
    destruct (ascii_dec "+" "+"); [apply prefix_empty | congruence]. }
  cbn [map linesToInsert]. rewrite E. cbn [JS.substring].
  now rewrite substring_zero, IH.
Qed.

Lemma skipn_last {A : Type} (d : A) (l : list A) :
  l <> [] -> skipn (length l - 1) l = [last l d].
Proof.
  induction l as [| x l IH]; [congruence |]. intros _.
  destruct l as [| y l]; [reflexivity |].
  cbn [length] in *. replace (S (S (length l)) - 1)%nat
    with (S (S (length l) - 1)) by lia.
  cbn [skipn]. rewrite IH by discriminate. reflexivity.
Qed.

(** A descending list is determined by its members when the starts are
    pairwise distinct. *)
Lemma descending_unique (l1 : list Hunk) :
  forall l2,
    descending l1 -> descending l2 -> Permutation l1 l2 ->
    NoDup (map oldStartLine l1) -> l1 = l2.
Proof.
  unfold descending.
  induction l1 as [| x l1 IH]; intros l2 S1 S2 P N.
  - now apply Permutation_nil in P.
  - destruct l2 as [| y l2];
      [apply Permutation_sym, Permutation_nil in P; discriminate |].
    apply StronglySorted_inv in S1 as [S1 F1].
    apply StronglySorted_inv in S2 as [S2 F2].
    rewrite Forall_forall in F1, F2.
    assert (Hxy : x = y).
    { assert (Hx : In x (y :: l2))
        by (eapply Permutation_in; [exact P | now left]).
      assert (Hy : In y (x :: l1))
        by (eapply Permutation_in;
            [apply Permutation_sym; exact P | now left]).
      destruct Hx as [-> | Hx]; [reflexivity |].
      destruct Hy as [-> | Hy]; [reflexivity |].
      pose proof (F2 _ Hx). pose proof (F1 _ Hy).
      cbn [map] in N. apply NoDup_cons_iff in N as [N _].
      exfalso. apply N.
      replace (oldStartLine x) with (oldStartLine y) by lia.
      now apply in_map. }
    subst y. f_equal.
    apply IH; try assumption.
    + now apply Permutation_cons_inv in P.
    + cbn [map] in N. now apply NoDup_cons_iff in N as [_ N].
Qed.

End ApplierFacts.

(** X9: the content of a new file.  On the empty original, a record whose
    only hunk starts at line 0 or 1, removes nothing and has the added
    lines [ls] as its body gives the lines of [ls], each ended by a line
    feed. *)
Theorem X9_new_file_content
        (change : FileChange) (h : Hunk) (ls : list string) :
  hunks change = [h] ->
  oldStartLine h = 0%Z \/ oldStartLine h = 1%Z ->
  oldLineCount h = 0%Z ->
  ls <> [] ->
  Forall (fun l => JS.includes l JS.LF = false) ls ->
  content h = JS.join (map (String "+") ls) JS.LF ->
  applyPatchToContent EmptyString change = unlines ls.
Proof.
  intros Hh Hs Hc Hne Hls Hcontent.
  unfold applyPatchToContent. rewrite Hh.
  cbn [sortHunks insertHunk applyLines fold_left]. unfold applyHunk.
  rewrite Hcontent, split_join_LF, linesToInsert_added.
  - rewrite Hc, <- join_snoc_empty.
    destruct Hs as [-> | ->]; reflexivity.
  - destruct ls; [congruence | discriminate].
  - apply Forall_map. eapply Forall_impl; [| exact Hls].
    intros l Hl. cbn [JS.includes]. rewrite Hl, orb_false_r.
    reflexivity.
Qed.

(** A new file of two lines. *)
Lemma X9_witness :
  applyPatchToContent
    EmptyString
    (mkFileChange "n.txt" file true false
                  [mkHunk 0 0 1 2 ("+one" ++ JS.LF ++ "+two")])
  = ("one" ++ JS.LF ++ "two" ++ JS.LF)%string.
Proof.
  apply (X9_new_file_content
           (mkFileChange "n.txt" file true false
                         [mkHunk 0 0 1 2 ("+one" ++ JS.LF ++ "+two")])
           (mkHunk 0 0 1 2 ("+one" ++ JS.LF ++ "+two"))
           ["one"; "two"]).
  - reflexivity.
  - left. reflexivity.
  - reflexivity.
  - discriminate.
  - repeat constructor.
  - reflexivity.
Defined.

(** X10: a hunk that starts at line 0 and removes nothing, applied to a
    content that is not empty, is not spliced at the top: its lines go in
    before the last element of the line array, that is, at the end of a
    content that ends with a line feed. *)
Theorem X10_start_zero_goes_last
        (original : string) (change : FileChange) (h : Hunk) :
  hunks change = [h] ->
  oldStartLine h = 0%Z -> oldLineCount h = 0%Z ->
  applyPatchToContent original change
  = JS.join (removelast (JS.split original JS.LF)
               ++ replacement h
               ++ [last (JS.split original JS.LF) EmptyString])
            JS.LF.
Proof.
  intros Hh Hs Hc. unfold applyPatchToContent. rewrite Hh.
  cbn [sortHunks insertHunk applyLines fold_left].
  unfold applyHunk, JS.splice. rewrite Hs, Hc.
  pose proof (split_not_nil original JS.LF) as NN.
  set (L := JS.split original JS.LF) in *.
  cbn [Z.sub Z.opp Z.add Z.ltb Z.compare].
  assert (Hlen : (1 <= length L)%nat) by (destruct L; [congruence | cbn; lia]).
  rewrite Z.max_l by lia.
  rewrite (Z.max_l 0 0), Z.min_l by lia.
  replace (Z.to_nat (Z.of_nat (length L) + -1 + 0)) with (length L - 1)%nat
    by lia.
  replace (Z.to_nat (Z.of_nat (length L) + -1)) with (pred (length L))
    by lia.
  rewrite <- removelast_firstn_len.
  now rewrite (skipn_last EmptyString L NN).
Qed.

(** A new-file hunk on a file of two lines. *)
Lemma X10_witness :
  applyPatchToContent
    ("x" ++ JS.LF ++ "y" ++ JS.LF)
    (mkFileChange "f" file false false [mkHunk 0 0 1 1 "+top"])
  = ("x" ++ JS.LF ++ "y" ++ JS.LF ++ "top" ++ JS.LF)%string.
Proof.
  apply (X10_start_zero_goes_last
           ("x" ++ JS.LF ++ "y" ++ JS.LF)
           (mkFileChange "f" file false false [mkHunk 0 0 1 1 "+top"])
           (mkHunk 0 0 1 1 "+top")); reflexivity.
Defined.

(** X11: the splice is clamped to the file.  A hunk that starts after the
    last line removes nothing and its lines are added at the end; a hunk
    that starts in the file and counts more lines than are left removes
    all the lines from its start on. *)
Theorem X11_hunk_out_of_range (lines : list string) (h : Hunk) :
  (1 <= oldStartLine h)%Z ->
  ((Z.of_nat (length lines) <= oldStartLine h - 1)%Z ->
   applyHunk lines h = lines ++ replacement h)
  /\ ((oldStartLine h - 1 <= Z.of_nat (length lines))%Z ->
      (Z.of_nat (length lines) <= oldStartLine h - 1 + oldLineCount h)%Z ->
      applyHunk lines h = firstn (rangeStart h) lines ++ replacement h).
Proof.
  intros Hs. unfold applyHunk, JS.splice, rangeStart.
  fold (replacement h).
  destruct (Z.ltb_spec (oldStartLine h - 1) 0) as [Hlt | _]; [lia |].
  split.
  - intros Hout. rewrite Z.min_r by lia.
    rewrite Nat2Z.id, firstn_all.
    rewrite skipn_all2 by lia. now rewrite app_nil_r.
  - intros Hin Hover. rewrite Z.min_l by lia.
    rewrite (Z.min_r (Z.max (oldLineCount h) 0)) by lia.
    rewrite skipn_all2 by lia. now rewrite app_nil_r.
Qed.

(** A hunk at line 9 of a file of two lines. *)
Lemma X11_witness :
  applyHunk ["a"; "b"] (mkHunk 9 3 9 1 "+z") = ["a"; "b"; "z"].
Proof.
  refine (proj1 (X11_hunk_out_of_range ["a"; "b"] (mkHunk 9 3 9 1 "+z") _) _);
    cbn; lia.
Defined.

(** X12: the order of the hunks in the record does not matter when their
    starts are pairwise distinct: two records with the same hunks in any
    order give the same content. *)
Theorem X12_hunk_order_is_irrelevant
        (original : string) (change change' : FileChange) :
  Permutation (hunks change) (hunks change') ->
  NoDup (map oldStartLine (hunks change)) ->
  applyPatchToContent original change = applyPatchToContent original change'.
Proof.
  intros P N. unfold applyPatchToContent.
  rewrite (descending_unique (sortHunks (hunks change))
                             (sortHunks (hunks change'))); [reflexivity | | | |].
  - apply sortHunks_descending.
  - apply sortHunks_descending.
  - rewrite (sortHunks_perm (hunks change)), P.
    symmetry. apply sortHunks_perm.
  - eapply Permutation_NoDup; [| exact N].
    apply Permutation_map. symmetry. apply sortHunks_perm.
Qed.

(** The two hunks of the twenty-line file, in both orders. *)
Lemma X12_witness :
  applyPatchToContent
    twenty_lines (mkFileChange "f" file false false [hunk_at_2; hunk_at_10])
  = applyPatchToContent
      twenty_lines (mkFileChange "f" file false false [hunk_at_10; hunk_at_2]).
Proof.
  apply (X12_hunk_order_is_irrelevant twenty_lines
           (mkFileChange "f" file false false [hunk_at_2; hunk_at_10])
           (mkFileChange "f" file false false [hunk_at_10; hunk_at_2])).
  - apply perm_swap.
  - cbn. repeat constructor; cbn; intuition discriminate.
Defined.

(** X13: what the parser stores is what the applier inserts.  For a
    header that matches and body lines without marker and line feed, the
    hunk found has as its replacement the lines the applier's inner loop
    keeps of the body; a header with no body line at all gives a hunk
    whose replacement is one empty line. *)
Theorem X13_parsed_body_is_applied
        (header : string) (body : list string) (mh : captures) :
  JS.startsWith header "@@" = true ->
  matchRegex hunkHeaderPattern header = Some mh ->
  Forall (fun l => JS.startsWith l "@@" = false) body ->
  Forall (fun l => JS.includes l JS.LF = false) body ->
  exists h,
    findHunks (header :: body) = [h]
    /\ replacement h = match body with
                       | [] => [EmptyString]
                       | _ :: _ => linesToInsert body
                       end.
Proof.
  intros Hm Hh Hb Hlf.
  exists (mkHunk (startOf 1 mh) (countOr1 2 mh) (startOf 3 mh) (countOr1 4 mh)
                 (JS.join body JS.LF)).
  split; [exact (findHunks_one header body mh Hm Hh Hb) |].
  unfold replacement. cbn [content].
  destruct body as [| l rest]; [reflexivity |].
  now rewrite split_join_LF by (assumption || discriminate).
Qed.

(** A header with nothing after it. *)
Lemma X13_witness :
  exists h,
    findHunks ["@@ -3,0 +3,0 @@"] = [h] /\ replacement h = [EmptyString].
Proof.
  refine (X13_parsed_body_is_applied "@@ -3,0 +3,0 @@" []
            [(4, "0"); (3, "3"); (2, "0"); (1, "3")]%nat _ _ _ _).
  - reflexivity.
  - vm_compute. reflexivity.
  - constructor.
  - constructor.
Defined.

(* ================================================================== *)
(** ** The data of the preview *)

Section PreviewFacts.

Lemma mapIndexFrom_map {A B C : Type} (f : A -> Z -> B) (g : B -> C)
      (h : A -> C) (a : list A) :
  (forall x i, g (f x i) = h x) ->
  forall i, map g (mapIndexFrom f i a) = map h a.
Proof.
  intros Hg. induction a as [| x a IH]; intros i; cbn [mapIndexFrom map];
    [reflexivity | now rewrite Hg, IH].
Qed.

Lemma mapIndexFrom_numbers {A B : Type} (f : A -> Z -> B)
      (num : B -> option Z) (a : list A) :
  (forall x i, num (f x i) = Some (i + 1)%Z) ->
  forall i, map num (mapIndexFrom f i a) = lineNumbers (i + 1) (length a).
Proof.
  intros Hn. induction a as [| x a IH]; intros i;
    cbn [mapIndexFrom map length lineNumbers];
    [reflexivity | now rewrite Hn, IH].
Qed.

(** The entries before the loop take no part in a turn of it. *)
Lemma hunkLineStep_scanned (p q : list DiffLine) (o n : Z) (line : string) :
  hunkLineStep (mkDiffScan (p ++ q) o n) line
  = mkDiffScan (p ++ scanned (hunkLineStep (mkDiffScan q o n) line))
               (oldLineIndex (hunkLineStep (mkDiffScan q o n) line))
               (newLineIndex (hunkLineStep (mkDiffScan q o n) line)).
Proof.
  unfold hunkLineStep. cbn [scanned oldLineIndex newLineIndex].
  destruct (JS.startsWith line "-");
    [cbn [scanned oldLineIndex newLineIndex]; now rewrite <- app_assoc |].
  destruct (JS.startsWith line "+");
    cbn [scanned oldLineIndex newLineIndex]; now rewrite <- app_assoc.
Qed.

Lemma hunkLines_scanned (ls : list string) :
  forall p q o n,
    fold_left hunkLineStep ls (mkDiffScan (p ++ q) o n)
    = mkDiffScan
        (p ++ scanned (fold_left hunkLineStep ls (mkDiffScan q o n)))
        (oldLineIndex (fold_left hunkLineStep ls (mkDiffScan q o n)))
        (newLineIndex (fold_left hunkLineStep ls (mkDiffScan q o n))).
Proof.
  induction ls as [| l ls IH]; intros p q o n; [reflexivity |].
  cbn [fold_left]. rewrite hunkLineStep_scanned.
  destruct (hunkLineStep (mkDiffScan q o n) l) as [q' o' n'].
  cbn [scanned oldLineIndex newLineIndex]. apply IH.
Qed.

(** The entries of a hunk, line by line. *)
Lemma hunkEntries_cons (o n : Z) (l : string) (ls : list string) :
  hunkEntries o n (l :: ls)
  = scanned (hunkLineStep (mkDiffScan [] o n) l)
      ++ hunkEntries (oldLineIndex (hunkLineStep (mkDiffScan [] o n) l))
                     (newLineIndex (hunkLineStep (mkDiffScan [] o n) l)) ls.
Proof.
  unfold hunkEntries. cbn [fold_left].
  destruct (hunkLineStep (mkDiffScan [] o n) l) as [q o' n'] eqn:E.
  cbn [scanned oldLineIndex newLineIndex].
  rewrite <- (app_nil_r q) at 1. now rewrite hunkLines_scanned.
Qed.

End PreviewFacts.

Section PreviewRuns.


Lemma contextRun_types (oldLines : list string) (n : nat) :
  forall o j,
    Forall (fun e => lineType e = lineContext) (contextRun oldLines n o j).
Proof.
  induction n as [| n IH]; intros o j; cbn [contextRun]; constructor;
    [reflexivity | apply IH].
Qed.

Lemma contextRun_numbers (oldLines : list string) (n : nat) :
  forall o j,
    map oldLineNum (contextRun oldLines n o j) = lineNumbers (o + 1) n
    /\ map newLineNum (contextRun oldLines n o j) = lineNumbers (j + 1) n.
Proof.
  induction n as [| n IH]; intros o j; cbn [contextRun map lineNumbers].
  - now split.
  - destruct (IH (o + 1)%Z (j + 1)%Z) as [-> ->]. now split.
Qed.

Lemma skipn_nth_error {A : Type} (l : list A) :
  forall k x, nth_error l k = Some x -> skipn k l = x :: skipn (S k) l.
Proof.
  induction l as [| y l IH]; intros [| k] x H; try discriminate.
  - cbn in H. now injection H as ->.
  - cbn [nth_error] in H. cbn [skipn]. now rewrite (IH k x H).
Qed.

(** A context run inside the file shows the lines of the file. *)
Lemma contextRun_texts (oldLines : list string) (n : nat) :
  forall k j,
    (k + n <= length oldLines)%nat ->
    map lineContent (contextRun oldLines n (Z.of_nat k) j)
    = map Some (firstn n (skipn k oldLines)).
Proof.
  induction n as [| n IH]; intros k j Hk; [reflexivity |].
  cbn [contextRun map lineContent].
  replace (Z.of_nat k + 1)%Z with (Z.of_nat (S k)) by lia.
  rewrite IH by lia.
  unfold arrayGet. destruct (Z.ltb_spec (Z.of_nat k) 0) as [? | _]; [lia |].
  rewrite Nat2Z.id.
  destruct (nth_error oldLines k) as [x |] eqn:E.
  - rewrite (skipn_nth_error _ _ _ E). reflexivity.
  - apply nth_error_None in E. lia.
Qed.

Lemma keptTexts_app (a b : list DiffLine) :
  keptTexts (a ++ b) = keptTexts a ++ keptTexts b.
Proof. unfold keptTexts. now rewrite filter_app, map_app. Qed.

End PreviewRuns.

(** X14: the preview of a deletion lists every line of the old content
    as a removal, numbered from 1 on the old side; its texts, joined as
    lines, are the old content. *)
Theorem X14_deletion_preview (oldContent : string) :
  textOf (diffLines (generateDeletionDiff oldContent)) = oldContent
  /\ Forall (fun e => lineType e = lineRemove /\ newLineNum e = None)
            (diffLines (generateDeletionDiff oldContent))
  /\ map oldLineNum (diffLines (generateDeletionDiff oldContent))
     = lineNumbers 1 (length (JS.split oldContent JS.LF))
  /\ isDeletedFile (generateDeletionDiff oldContent) = Some true.
Proof.
  unfold generateDeletionDiff, textOf, mapIndex. cbn [diffLines isDeletedFile].
  repeat split.
  - rewrite (mapIndexFrom_map _ _ (fun x => x)) by reflexivity.
    rewrite map_id. apply join_split_LF.
  - generalize 0%Z. induction (JS.split oldContent JS.LF) as [| l ls IH];
      intros i; cbn [mapIndexFrom]; constructor; [now split | apply IH].
  - now rewrite (mapIndexFrom_numbers _ oldLineNum) by reflexivity.
Qed.

(** X15: for a record flagged as new the preview looks at the new content
    only: every line of it is an addition, numbered from 1 on the new
    side, the texts joined as lines are the new content, and neither the
    old content nor the hunks change the result. *)
Theorem X15_new_file_preview
        (oldContent newContent : string) (change : FileChange) :
  isNew change = true ->
  textOf (diffLines (generateDiff oldContent newContent change)) = newContent
  /\ Forall (fun e => lineType e = lineAdd /\ oldLineNum e = None)
            (diffLines (generateDiff oldContent newContent change))
  /\ map newLineNum (diffLines (generateDiff oldContent newContent change))
     = lineNumbers 1 (length (JS.split newContent JS.LF))
  /\ (forall oldContent' change',
         isNew change' = true ->
         generateDiff oldContent' newContent change'
         = generateDiff oldContent newContent change).
Proof.
  intros Hn. unfold generateDiff, textOf, mapIndex. rewrite Hn.
  cbn [diffLines]. repeat split.
  - rewrite (mapIndexFrom_map _ _ (fun x => x)) by reflexivity.
    rewrite map_id. apply join_split_LF.
  - generalize 0%Z. induction (JS.split newContent JS.LF) as [| l ls IH];
      intros i; cbn [mapIndexFrom]; constructor; [now split | apply IH].
  - now rewrite (mapIndexFrom_numbers _ newLineNum) by reflexivity.
  - intros oldContent' change' ->. reflexivity.
Qed.

(** A new file of two lines, with an old content that is ignored. *)
Lemma X15_witness :
  textOf (diffLines
            (generateDiff "old" ("one" ++ JS.LF ++ "two")
                          (mkFileChange "n.txt" file true false [])))
  = ("one" ++ JS.LF ++ "two")%string.
Proof.
  apply (X15_new_file_preview "old" ("one" ++ JS.LF ++ "two")
           (mkFileChange "n.txt" file true false [])).
  reflexivity.
Defined.



Section PreviewAgreement.

Lemma minus_is_not_plus (l : string) :
  JS.startsWith l "-" = true -> JS.startsWith l "+" = false.
Proof.
  unfold JS.startsWith. destruct l as [| c l]; [discriminate |].
  cbn [String.prefix].
  destruct (ascii_dec "-" c) as [<- | _]; [| discriminate].
  reflexivity.
Qed.

Lemma backslash_is_not_minus (l : string) :
  JS.startsWith l (String JS.backslash "") = true ->
  JS.startsWith l "-" = false /\ JS.startsWith l "+" = false.
Proof.
  unfold JS.startsWith. destruct l as [| c l]; [discriminate |].
  cbn [String.prefix].
  destruct (ascii_dec JS.backslash c) as [<- | _]; [| discriminate].
  now split.
Qed.

(** What one hunk line adds to the texts kept by the preview. *)
Lemma keptTexts_step (o n : Z) (l : string) :
  keptTexts (scanned (hunkLineStep (mkDiffScan [] o n) l))
  = if JS.startsWith l "-" then [] else [Some (JS.substring l 1)].
Proof.
  unfold hunkLineStep, keptTexts. cbn [scanned oldLineIndex newLineIndex app].
  destruct (JS.startsWith l "-"); [reflexivity |].
  destruct (JS.startsWith l "+"); reflexivity.
Qed.

Lemma keptTexts_entries (ls : list string) :
  forall o n,
    keptTexts (hunkEntries o n ls)
    = map (fun l => Some (JS.substring l 1))
          (filter (fun l => negb (JS.startsWith l "-")) ls).
Proof.
  induction ls as [| l ls IH]; intros o n; [reflexivity |].
  rewrite hunkEntries_cons, keptTexts_app, keptTexts_step, IH.
  cbn [filter]. destruct (JS.startsWith l "-"); reflexivity.
Qed.

Lemma linesToInsert_filter (ls : list string) :
  linesToInsert ls
  = map (fun l => JS.substring l 1)
        (filter (fun l => negb (JS.startsWith l "-")
                          && negb (JS.startsWith l (String JS.backslash "")))
                ls).
Proof.
  induction ls as [| l ls IH]; [reflexivity |].
  cbn [linesToInsert filter]. rewrite IH.
  destruct (JS.startsWith l "+") eqn:P.
  - destruct (JS.startsWith l "-") eqn:M;
      [apply minus_is_not_plus in M; congruence |].
    destruct (JS.startsWith l (String JS.backslash "")) eqn:B;
      [apply backslash_is_not_minus in B as [_ B]; congruence |].
    reflexivity.
  - destruct (JS.startsWith l "-"); [reflexivity |].
    destruct (JS.startsWith l (String JS.backslash "")); reflexivity.
Qed.

End PreviewAgreement.

(** X17: the preview and the applier read a hunk alike, but for the
    lines that begin with a backslash.  Without such a line, the texts of
    the hunk's entries that are not removals are the lines the applier
    puts in place; in general the preview keeps, as context lines, the
    backslash lines that the applier drops. *)
Theorem X17_preview_agrees_with_applier (h : Hunk) (o n : Z) :
  Forall (fun l => JS.startsWith l (String JS.backslash "") = false)
         (JS.split (content h) JS.LF) ->
  keptTexts (hunkEntries o n (JS.split (content h) JS.LF))
  = map Some (replacement h)
  /\ (forall ls : list string,
         length (keptTexts (hunkEntries o n ls))
         = (length (linesToInsert ls)
            + length (filter (fun l => JS.startsWith l (String JS.backslash ""))
                             ls))%nat).
Proof.
  intros Hb. split.
  - unfold replacement. rewrite keptTexts_entries, linesToInsert_filter.
    rewrite map_map. f_equal.
    induction Hb as [| l ls Hl _ IH]; [reflexivity |].
    cbn [filter]. rewrite Hl, andb_true_r, IH. reflexivity.
  - intros ls. rewrite keptTexts_entries, linesToInsert_filter.
    rewrite !length_map.
    induction ls as [| l ls IH]; [reflexivity |].
    cbn [filter].
    destruct (JS.startsWith l "-") eqn:M.
    + destruct (JS.startsWith l (String JS.backslash "")) eqn:B;
        [apply backslash_is_not_minus in B as [B _]; congruence |].
      cbn [negb andb]. exact IH.
    + destruct (JS.startsWith l (String JS.backslash ""));
        cbn [negb andb length]; lia.
Qed.

(** The hunk of the fixture. *)
Lemma X17_witness :
  keptTexts (hunkEntries 0 0 [" a"; "-b"; "+c"; "+d"; " e"])
  = [Some "a"; Some "c"; Some "d"; Some "e"].
Proof.
  refine (proj1 (X17_preview_agrees_with_applier
                   (mkHunk 1 3 1 4 (JS.join [" a"; "-b"; "+c"; "+d"; " e"] JS.LF))
                   0 0 _)).
  repeat constructor.
Defined.

Section PreviewNumbers.


End PreviewNumbers.


(** X19: the preview of a record without hunks, not flagged as new, is
    the first three lines of the old content (all of them when there are
    fewer), as context lines numbered from 1 on both sides. *)
Theorem X19_preview_without_hunks
        (oldContent newContent : string) (change : FileChange) :
  isNew change = false ->
  hunks change = [] ->
  map lineContent (diffLines (generateDiff oldContent newContent change))
  = map Some (firstn 3 (JS.split oldContent JS.LF))
  /\ Forall (fun e => lineType e = lineContext)
            (diffLines (generateDiff oldContent newContent change))
  /\ map oldLineNum (diffLines (generateDiff oldContent newContent change))
     = lineNumbers 1 (Nat.min 3 (length (JS.split oldContent JS.LF)))
  /\ map newLineNum (diffLines (generateDiff oldContent newContent change))
     = lineNumbers 1 (Nat.min 3 (length (JS.split oldContent JS.LF))).
Proof.
  intros Hn Hh. unfold generateDiff. rewrite Hn, Hh.
  set (L := JS.split oldContent JS.LF).
  cbn [fold_left]. unfold contextTo.
  cbn [diffLines scanned oldLineIndex newLineIndex app].
  replace (Z.to_nat (Z.min (Z.of_nat (length L)) (0 + 3) - 0))
    with (Nat.min 3 (length L)) by lia.
  destruct (contextRun_numbers L (Nat.min 3 (length L)) 0 0) as [E1 E2].
  repeat split.
  - pose proof (contextRun_texts L (Nat.min 3 (length L)) 0 0) as E0.
    cbn [Z.of_nat skipn] in E0. rewrite E0 by lia. f_equal.
    destruct (Nat.le_ge_cases 3 (length L)) as [Hle | Hge].
    + now rewrite Nat.min_l by exact Hle.
    + rewrite Nat.min_r by exact Hge.
      now rewrite !firstn_all2 by lia.
  - apply contextRun_types.
  - exact E1.
  - exact E2.
Qed.

(** A record without hunks on a file of five lines. *)
Lemma X19_witness :
  map lineContent
      (diffLines
         (generateDiff (JS.join ["a"; "b"; "c"; "d"; "e"] JS.LF) EmptyString
                       (mkFileChange "f" file false false [])))
  = [Some "a"; Some "b"; Some "c"].
Proof.
  apply (X19_preview_without_hunks
           (JS.join ["a"; "b"; "c"; "d"; "e"] JS.LF) EmptyString
           (mkFileChange "f" file false false [])); reflexivity.
Defined.

(* ================================================================== *)
(** ** The preparation loop *)

Section PreparationFacts.
Variable H : Host.
Variable workspaceRoot : string.

(** One turn leaves the arrays as they are, or adds one element for the
    record at hand. *)
Lemma prepareChange_cases (acc acc' : Prepared) (change : FileChange)
      (w w' : world H) :
  prepareChange H workspaceRoot acc change w = (inr acc', w') ->
  acc' = acc
  \/ (exists s, acc' = (fst acc ++ [s], snd acc)
                /\ supportedOk H workspaceRoot [change] s)
  \/ (exists d, acc' = (fst acc, snd acc ++ [d])
                /\ deletedOk H workspaceRoot [change] d).
Proof.
  unfold prepareChange. destruct acc as [sup del]. cbn [fst snd].
  destruct (fileType change) eqn:Hk.
  - destruct (existsSync H w _) as [targetFileExists w1].
    destruct (isDeleted change) eqn:Hd.
    + intros E. injection E as <- _.
      destruct targetFileExists; [| now left].
      right. right. eexists. split; [reflexivity |].
      repeat split; cbn; auto.
    + destruct (if targetFileExists then _ else _) as [[e | [|]] w2];
        [discriminate | intros E; injection E as <- _; now left |].
      destruct (if targetFileExists then _ else _) as [[e | original] w3];
        [intros E; injection E as <- _; now left |].
      destruct (existsSync H w3 _) as [tempDirExists w4].
      destruct (if tempDirExists then _ else _) as [[e | u] w5];
        [discriminate |].
      destruct (writeFileSync H w5 _ _) as [[e | u'] w6];
        intros E; injection E as <- _; [now left |].
      right. left. eexists. split; [reflexivity |].
      repeat split; cbn; auto. now exists original.
  - intros E. injection E as <- _. now left.
  - intros E. injection E as <- _. now left.
Qed.

Lemma supportedOk_more (l1 l2 : list FileChange) (s : SupportedChange) :
  incl l1 l2 -> supportedOk H workspaceRoot l1 s ->
  supportedOk H workspaceRoot l2 s.
Proof.
  intros Hi (Hin & rest). split; [now apply Hi | exact rest].
Qed.

Lemma deletedOk_more (l1 l2 : list FileChange) (d : DeletedFile) :
  incl l1 l2 -> deletedOk H workspaceRoot l1 d ->
  deletedOk H workspaceRoot l2 d.
Proof.
  intros Hi (Hin & rest). split; [now apply Hi | exact rest].
Qed.

Lemma prepareChanges_inv (fileChanges : list FileChange) :
  forall (all : list FileChange) (acc acc' : Prepared) (w w' : world H),
    incl fileChanges all ->
    Forall (supportedOk H workspaceRoot all) (fst acc) ->
    Forall (deletedOk H workspaceRoot all) (snd acc) ->
    prepareChanges H workspaceRoot fileChanges acc w = (inr acc', w') ->
    Forall (supportedOk H workspaceRoot all) (fst acc')
    /\ Forall (deletedOk H workspaceRoot all) (snd acc')
    /\ (length (fst acc') + length (snd acc')
        <= length (fst acc) + length (snd acc) + length fileChanges)%nat.
Proof.
  induction fileChanges as [| change rest IH];
    intros all acc acc' w w' Hincl Hs Hd E.
  - cbn in E. injection E as <- _. repeat split; try assumption. lia.
  - cbn [prepareChanges] in E.
    destruct (prepareChange H workspaceRoot acc change w) as [[e | acc1] w1]
      eqn:E1; [discriminate |].
    assert (Hin : incl [change] all).
    { intros x [<- | []]. apply Hincl. now left. }
    assert (Hrest : incl rest all).
    { intros x Hx. apply Hincl. now right. }
    destruct (prepareChange_cases _ _ _ _ _ E1)
      as [-> | [(s & -> & Hok) | (d & -> & Hok)]].
    + destruct (IH all acc acc' w1 w' Hrest Hs Hd E) as (A & B & C).
      repeat split; try assumption. cbn [length]. lia.
    + assert (Hs' : Forall (supportedOk H workspaceRoot all)
                           (fst (fst acc ++ [s], snd acc))).
      { cbn [fst]. apply Forall_app. split; [exact Hs |].
        constructor; [| constructor].
        exact (supportedOk_more _ _ _ Hin Hok). }
      destruct (IH all (fst acc ++ [s], snd acc) acc' w1 w' Hrest Hs' Hd E)
        as (A & B & C).
      repeat split; try assumption.
      cbn [fst snd length] in *. rewrite length_app in C. cbn in C. lia.
    + assert (Hd' : Forall (deletedOk H workspaceRoot all)
                           (snd (fst acc, snd acc ++ [d]))).
      { cbn [snd]. apply Forall_app. split; [exact Hd |].
        constructor; [| constructor].
        exact (deletedOk_more _ _ _ Hin Hok). }
      destruct (IH all (fst acc, snd acc ++ [d]) acc' w1 w' Hrest Hs Hd' E)
        as (A & B & C).
      repeat split; try assumption.
      cbn [fst snd length] in *. rewrite length_app in C. cbn in C. lia.
Qed.

End PreparationFacts.

(** X20: whatever the host does, when the preparation loop ends without
    an exception every element of [supportedChanges] holds a record of
    the input that is regular and not deleted, with the target path
    joined from its path, the temporary path made from the base name of
    its path alone, and the new content the applier gives on some
    original content; every element of [deletedFiles] holds a regular
    record flagged as deleted; and no record gives more than one
    element.  So the applier is never run on a directory, a binary file
    or a deleted file. *)
Theorem X20_preparation_loop
        (H : Host) (workspaceRoot : string) (fileChanges : list FileChange)
        (w w' : world H) (supported : list SupportedChange)
        (deleted : list DeletedFile) :
  prepareChanges H workspaceRoot fileChanges ([], []) w
  = (inr (supported, deleted), w') ->
  Forall (supportedOk H workspaceRoot fileChanges) supported
  /\ Forall (deletedOk H workspaceRoot fileChanges) deleted
  /\ (length supported + length deleted <= length fileChanges)%nat.
Proof.
  intros E.
  destruct (prepareChanges_inv H workspaceRoot fileChanges fileChanges
                               ([], []) (supported, deleted) w w'
                               (incl_refl _) (Forall_nil _) (Forall_nil _) E)
    as (A & B & C).
  repeat split; assumption.
Qed.

(** A binary record, a record to patch and a deleted record whose file
    is not there: one element, and one message. *)
Lemma X20_witness :
  Forall (supportedOk quietHost "root"
            [ mkFileChange "logo.png" binary false false [];
              mkFileChange "n.txt" file true false [mkHunk 0 0 1 1 "+one"];
              mkFileChange "gone.txt" file false true [] ])
         [ mkSupported
             (mkFileChange "n.txt" file true false [mkHunk 0 0 1 1 "+one"])
             "root/n.txt" "root/.temp_n.txt" ("one" ++ JS.LF) ]
  /\ Forall (deletedOk quietHost "root"
               [ mkFileChange "logo.png" binary false false [];
                 mkFileChange "n.txt" file true false [mkHunk 0 0 1 1 "+one"];
                 mkFileChange "gone.txt" file false true [] ])
            []
  /\ (1 + 0 <= 3)%nat.
Proof.
  apply (X20_preparation_loop quietHost "root"
           [ mkFileChange "logo.png" binary false false [];
             mkFileChange "n.txt" file true false [mkHunk 0 0 1 1 "+one"];
             mkFileChange "gone.txt" file false true [] ]
           []
           [ "Skipping binary file: logo.png (not supported in this version)";
             "root/.temp_n.txt" ]).
  reflexivity.
Defined.

(* ================================================================== *)
(** ** The rollback of the preview *)

Section RollbackFacts.
Variable H : Host.

Lemma mapHas_mapSet (m : Backups) (k v key : string) :
  mapHas (mapSet m k v) key = true -> key = k \/ mapHas m key = true.
Proof.
  induction m as [| [k0 v0] m IH]; cbn [mapSet mapHas].
  - destruct (String.eqb_spec k key) as [-> | _]; [now left | discriminate].
  - destruct (String.eqb_spec k0 k) as [-> | Hne]; cbn [mapHas].
    + destruct (String.eqb k key); [now right | now right].
    + destruct (String.eqb k0 key); [now right | exact IH].
Qed.

(** The keys of the backups are target paths of the files to patch. *)
Lemma makeBackups_keys (supported : list SupportedChange) :
  forall (m backups : Backups) (w w' : world H) (key : string),
    makeBackups H supported m w = (inr backups, w') ->
    mapHas backups key = true ->
    mapHas m key = true \/ In key (map sTargetFilePath supported).
Proof.
  induction supported as [| item rest IH]; intros m backups w w' key E Hk.
  - cbn in E. injection E as <- _. now left.
  - cbn [makeBackups] in E.
    destruct (existsSync H w (sTargetFilePath item)) as [ex w1].
    destruct ex.
    + destruct (readFileSync H w1 (sTargetFilePath item)) as [[e | text] w2];
        [discriminate |].
      destruct (IH _ _ _ _ _ E Hk) as [Hm | Hin]; [| right; now right].
      destruct (mapHas_mapSet _ _ _ _ Hm) as [-> | Hm'];
        [right; now left | now left].
    + destruct (IH _ _ _ _ _ E Hk) as [Hm | Hin];
        [now left | right; now right].
Qed.

Lemma restoreDeleted_none (backups : Backups) (deleted : list DeletedFile) :
  Forall (fun d => mapHas backups (dTargetFilePath d) = false) deleted ->
  forall w, restoreDeleted H backups deleted w = w.
Proof.
  unfold restoreDeleted.
  induction 1 as [| d rest Hd _ IH]; intros w; [reflexivity |].
  cbn [fold_left]. rewrite Hd. apply IH.
Qed.

End RollbackFacts.

(** X21: the rollback of a rejected preview does not bring back the
    deleted files.  The backups hold contents of files to patch only, so
    for files to delete whose paths are not among the targets of the
    files to patch the rollback does what it does without them: no write
    restores them. *)
Theorem X21_rollback_ignores_deleted_files
        (H : Host) (supported : list SupportedChange)
        (deleted : list DeletedFile) (backups : Backups)
        (w0 w1 w : world H) :
  makeBackups H supported [] w0 = (inr backups, w1) ->
  Forall (fun d => ~ In (dTargetFilePath d) (map sTargetFilePath supported))
         deleted ->
  rollbackChanges H supported backups deleted w
  = rollbackChanges H supported backups [] w.
Proof.
  intros Hb Hd. unfold rollbackChanges. f_equal.
  rewrite restoreDeleted_none; [reflexivity |].
  eapply Forall_impl; [| exact Hd]. cbn. intros d Hnot.
  destruct (mapHas backups (dTargetFilePath d)) eqn:E; [| reflexivity].
  destruct (makeBackups_keys H supported [] backups w0 w1 _ Hb E)
    as [Hm | Hin]; [discriminate | contradiction].
Qed.

(** One file to patch and one file to delete, both on the disk when the
    backups are made; the preview has then patched the one and deleted
    the other. *)
Lemma X21_witness :
  rollbackChanges diskHost
    [mkSupported (mkFileChange "a.txt" file false false []) "root/a.txt"
                 "root/.temp_a.txt" "new"]
    [("root/a.txt", "old")]
    [mkDeleted (mkFileChange "gone.txt" file false true []) "root/gone.txt"]
    [("root/a.txt", "new")]
  = rollbackChanges diskHost
      [mkSupported (mkFileChange "a.txt" file false false []) "root/a.txt"
                   "root/.temp_a.txt" "new"]
      [("root/a.txt", "old")]
      []
      [("root/a.txt", "new")].
Proof.
  apply (X21_rollback_ignores_deleted_files diskHost
           [mkSupported (mkFileChange "a.txt" file false false [])
                        "root/a.txt" "root/.temp_a.txt" "new"]
           [mkDeleted (mkFileChange "gone.txt" file false true [])
                      "root/gone.txt"]
           [("root/a.txt", "old")]
           [("root/a.txt", "old"); ("root/gone.txt", "bye")]
           [("root/a.txt", "old"); ("root/gone.txt", "bye")]
           [("root/a.txt", "new")]).
  - reflexivity.
  - constructor; [| constructor]. cbn. intros [E | []]. discriminate.
Defined.

